(** * NumClash: the game rules engine and its turn state machine

    A shallow embedding of the game logic of [NumClashScreen.tsx]
    (constants, random helpers, [initializeGame], [applyOperation],
    [canDivide], [rollDiceForGame], [applyDiceOperation], [applyFinalMove],
    [getCurrentPlayer]) and of the handlers of the screen component that
    call the two transitions that can fail ([selectDiceOperation],
    [selectFinalOperation], [handleTimeUp]), followed by the properties of
    the specification.

    Modelling conventions.
    - A TypeScript [number] that holds an integer is a [Z].  The engine
      only adds, multiplies, takes absolute differences and exact
      quotients of integers, so integers stay integers.  A [number] is a
      double: sums, differences and products are exact up to [2 ^ 53] in
      magnitude and rounded beyond; [applyOperation] is the arithmetic on
      the integers, [applyOperation_double] adds the rounding, and the
      two agree on the exact range.
    - [x % y] is JavaScript's truncating remainder, [Z.rem].
    - A value of type [T | null] is an [option T].
    - [throw new Error(msg)] is [Throw (Error msg)]; reading a property of
      [undefined] is [Throw TypeError].  A call returns [Ok v] or throws.
    - The engine never assigns to a field of an object it receives: every
      object it returns is built with spread syntax or [Array.map].  Its
      objects are therefore values.
    - [Math.random()] is a hidden input.  Every function that calls it
      takes one rational argument per call, in call order; a legal draw
      [r] satisfies [0 <= r < 1] ([unit_draw]).  Arithmetic on draws is
      exact; the code rounds each product to a double before the floor,
      which can move a draw next to a boundary to the neighbouring value
      but never out of the range. *)

From Stdlib Require Import ZArith QArith Qround List String Ascii Bool Lia.
From Stdlib Require Import DecimalString Finite Qminmax Lqa.
Import ListNotations.

Local Open Scope Z_scope.

(** ** JavaScript outcomes *)

Inductive Thrown : Type :=
| Error (message : string)
| TypeError.

Inductive result (A : Type) : Type :=
| Ok (value : A)
| Throw (e : Thrown).

Arguments Ok {A} value.
Arguments Throw {A} e.

Definition bind {A B : Type} (r : result A) (k : A -> result B) : result B :=
  match r with
  | Ok a => k a
  | Throw e => Throw e
  end.

Notation "'let*' x ':=' r 'in' k" := (bind r (fun x => k))
  (at level 10, x name, r at level 100, k at level 200).

(** [Math.random()]: a double in the half-open unit interval. *)
Definition unit_draw (r : Q) : Prop := (0 <= r)%Q /\ (r < 1)%Q.

Definition Math_floor (x : Q) : Z := Qfloor x.

(** [s.trim()].  A [string] holds the UTF-8 bytes of the JavaScript
    string.  [trim] strips from both ends the WhiteSpace and
    LineTerminator code points of ECMAScript: U+0009 to U+000D, U+0020,
    U+00A0, U+1680, U+2000 to U+200A, U+2028, U+2029, U+202F, U+205F,
    U+3000 and U+FEFF, encoded on one, two or three bytes. *)
Definition is_white_space (c : ascii) : bool :=
  let n := nat_of_ascii c in
  (Nat.eqb n 32 || Nat.eqb n 9 || Nat.eqb n 10 || Nat.eqb n 11
   || Nat.eqb n 12 || Nat.eqb n 13)%bool.

(** U+00A0 is C2 A0. *)
Definition is_white_space2 (c1 c2 : ascii) : bool :=
  (Nat.eqb (nat_of_ascii c1) 194 && Nat.eqb (nat_of_ascii c2) 160)%bool.

(** U+1680 is E1 9A 80; U+2000 to U+200A are E2 80 80 to E2 80 8A; U+2028,
    U+2029 and U+202F are E2 80 A8, E2 80 A9 and E2 80 AF; U+205F is
    E2 81 9F; U+3000 is E3 80 80; U+FEFF is EF BB BF. *)
Definition is_white_space3 (c1 c2 c3 : ascii) : bool :=
  let n1 := nat_of_ascii c1 in
  let n2 := nat_of_ascii c2 in
  let n3 := nat_of_ascii c3 in
  (Nat.eqb n1 225 && Nat.eqb n2 154 && Nat.eqb n3 128
   || Nat.eqb n1 226 && Nat.eqb n2 128
      && (Nat.leb 128 n3 && Nat.leb n3 138
          || Nat.eqb n3 168 || Nat.eqb n3 169 || Nat.eqb n3 175)
   || Nat.eqb n1 226 && Nat.eqb n2 129 && Nat.eqb n3 159
   || Nat.eqb n1 227 && Nat.eqb n2 128 && Nat.eqb n3 128
   || Nat.eqb n1 239 && Nat.eqb n2 187 && Nat.eqb n3 191)%bool.

Fixpoint trimStart (s : string) : string :=
  match s with
  | EmptyString => EmptyString
  | String c1 rest1 =>
      if is_white_space c1 then trimStart rest1
      else
        match rest1 with
        | EmptyString => s
        | String c2 rest2 =>
            if is_white_space2 c1 c2 then trimStart rest2
            else
              match rest2 with
              | EmptyString => s
              | String c3 rest3 =>
                  if is_white_space3 c1 c2 c3 then trimStart rest3 else s
              end
        end
  end.

(** The same on the bytes read from the end: a byte below 128, a C2 or an
    E1, E2, E3 or EF followed by its continuation bytes always ends a
    whole code point. *)
Fixpoint trim_reversed (bytes : list ascii) : list ascii :=
  match bytes with
  | [] => []
  | c1 :: rest1 =>
      if is_white_space c1 then trim_reversed rest1
      else
        match rest1 with
        | [] => bytes
        | c2 :: rest2 =>
            if is_white_space2 c2 c1 then trim_reversed rest2
            else
              match rest2 with
              | [] => bytes
              | c3 :: rest3 =>
                  if is_white_space3 c3 c2 c1 then trim_reversed rest3
                  else bytes
              end
        end
  end.

Definition trimEnd (s : string) : string :=
  string_of_list_ascii
    (rev (trim_reversed (rev (list_ascii_of_string s)))).

Definition trim (s : string) : string := trimEnd (trimStart s).

(** Template-literal rendering of an integer. *)
Definition string_of_number (n : Z) : string :=
  NilZero.string_of_int (Z.to_int n).

(** ** Data model *)

Record Player : Type := mkPlayer {
  id : Z;
  name : string;
  currentNumber : Z;
  (* [PLAYER_COLORS[i]] is [undefined] from the fifth seat on *)
  color : option string
}.

Inductive GamePhase : Type :=
| roll
| dice_operation
| final_operation.

Record GameState : Type := mkGameState {
  players : list Player;
  targetNumber : Z;
  currentPlayerIndex : Z;
  diceResults : option (Z * Z);
  diceCalculationResult : option Z;
  winner : option Player;
  gameStarted : bool;
  gamePhase : GamePhase
}.

(** [type Operation = '+' | '-' | '*' | '/'] *)
Inductive Operation : Type :=
| Plus
| Minus
| Times
| Divide.

Definition INITIAL_PLAYER_NUMBER : Z := 5.
Definition MIN_TARGET : Z := 50.
Definition MAX_TARGET : Z := 500.
Definition DICE_OPERATION_TIMER : Z := 5.
Definition FINAL_OPERATION_TIMER : Z := 5.

Definition PLAYER_COLORS : list string :=
  ["#FF6B6B"; "#4ECDC4"; "#45B7D1"; "#96CEB4"]%string.

(** [arr[i]] for a numeric index: [undefined] outside the array. *)
Definition at_index {A : Type} (arr : list A) (i : Z) : option A :=
  if i <? 0 then None else nth_error arr (Z.to_nat i).

(** The messages of the engine's [throw] statements. *)
Definition msg_division_by_zero : string := "Sıfıra bölme yapılamaz!".
Definition msg_inexact_division : string := "Tam bölme yapılamaz!".
Definition msg_roll_first : string := "Önce zar atmalısınız!".
Definition msg_dice_operation_first : string := "Önce zar işlemi yapmalısınız!".

(** The specification's error taxonomy, read off the throw sites. *)
Definition IllegalOperation (e : Thrown) : Prop :=
  e = Error msg_division_by_zero \/ e = Error msg_inexact_division.

Definition PreconditionError (e : Thrown) : Prop :=
  e = Error msg_roll_first \/ e = Error msg_dice_operation_first.

(** ** Random helpers *)

Definition generateTargetNumber (r : Q) : Z :=
  Math_floor (r * inject_Z (MAX_TARGET - MIN_TARGET + 1) + inject_Z MIN_TARGET).

Definition rollDice (r : Q) : Z :=
  Math_floor (r * 6) + 1.

Definition rollTwoDice (r1 r2 : Q) : Z * Z :=
  (rollDice r1, rollDice r2).

(** ** Session bootstrap *)

(** [customNames?.[i]?.trim() || `Oyuncu ${i + 1}`] *)
Definition seat_name (customNames : option (list string)) (i : Z) : string :=
  let placeholder := ("Oyuncu " ++ string_of_number (i + 1))%string in
  match customNames with
  | None => placeholder
  | Some names =>
      match at_index names i with
      | None => placeholder
      | Some s => if String.eqb (trim s) "" then placeholder else trim s
      end
  end.

Definition seat (customNames : option (list string)) (i : Z) : Player :=
  {| id := i + 1;
     name := seat_name customNames i;
     currentNumber := INITIAL_PLAYER_NUMBER;
     color := at_index PLAYER_COLORS i |}.

(** [for (let i = 0; i < playerCount; i++) players.push(...)], with the
    number of remaining iterations as the structural argument. *)
Fixpoint push_seats (customNames : option (list string))
         (i : Z) (remaining : nat) (acc : list Player) : list Player :=
  match remaining with
  | O => acc
  | S k => push_seats customNames (i + 1) k (acc ++ [seat customNames i])
  end.

Definition initializeGame (playerCount : Z) (customNames : option (list string))
           (rTarget rStart : Q) : result GameState :=
  let targetNumber := generateTargetNumber rTarget in
  let startingPlayerIndex := Math_floor (rStart * inject_Z playerCount) in
  let players := push_seats customNames 0 (Z.to_nat playerCount) [] in
  Ok {| players := players;
        targetNumber := targetNumber;
        currentPlayerIndex := startingPlayerIndex;
        diceResults := None;
        diceCalculationResult := None;
        winner := None;
        gameStarted := true;
        gamePhase := roll |}.

(** ** Arithmetic operation engine *)

(** The [default] branch of the source's [switch] is unreachable for the
    four values of [Operation].  In the division branch the remainder is
    zero, so the quotient of the two doubles is the integer quotient. *)
Definition applyOperation (number1 number2 : Z) (operation : Operation)
  : result Z :=
  match operation with
  | Plus => Ok (number1 + number2)
  | Minus => Ok (Z.abs (number1 - number2))
  | Times => Ok (number1 * number2)
  | Divide =>
      if number2 =? 0 then Throw (Error msg_division_by_zero)
      else if negb (Z.rem number1 number2 =? 0)
           then Throw (Error msg_inexact_division)
           else Ok (Z.quot number1 number2)
  end.

Definition canDivide (number1 number2 : Z) : bool :=
  if number2 =? 0 then false
  else Z.rem number1 number2 =? 0.

(** ** Numbers as doubles

    The finite double nearest to an integer (round to nearest, ties to
    even): an integer of magnitude at most [2 ^ 53] is a double itself;
    beyond, a double keeps 53 significant bits, and past the largest
    double the result is not finite. *)

Inductive Number : Type :=
| Finite (n : Z)
| NotFinite.

Definition nearest_double (x : Z) : Number :=
  let m := Z.abs x in
  if m <=? 2 ^ 53 then Finite x
  else
    let ulp := 2 ^ (Z.log2 m - 52) in
    let q := m / ulp in
    let r := m mod ulp in
    let q' :=
      if 2 * r <? ulp then q
      else if ulp <? 2 * r then q + 1
           else if Z.even q then q else q + 1 in
    if 2 ^ 1024 <=? q' * ulp then NotFinite
    else Finite (Z.sgn x * (q' * ulp)).

Definition is_double (x : Z) : Prop := nearest_double x = Finite x.

(** [Math.abs] on a rounded result. *)
Definition Math_abs (x : Number) : Number :=
  match x with
  | Finite n => Finite (Z.abs n)
  | NotFinite => NotFinite
  end.

(** [applyOperation] on two doubles that hold integers, with the rounding
    of each arithmetic operation. *)
Definition applyOperation_double (number1 number2 : Z) (operation : Operation)
  : result Number :=
  match operation with
  | Plus => Ok (nearest_double (number1 + number2))
  | Minus => Ok (Math_abs (nearest_double (number1 - number2)))
  | Times => Ok (nearest_double (number1 * number2))
  | Divide =>
      if number2 =? 0 then Throw (Error msg_division_by_zero)
      else if negb (Z.rem number1 number2 =? 0)
           then Throw (Error msg_inexact_division)
           else Ok (nearest_double (Z.quot number1 number2))
  end.

(** ** Game state machine *)

Definition rollDiceForGame (gameState : GameState) (r1 r2 : Q) : GameState :=
  let diceResults := rollTwoDice r1 r2 in
  {| players := players gameState;
     targetNumber := targetNumber gameState;
     currentPlayerIndex := currentPlayerIndex gameState;
     diceResults := Some diceResults;
     diceCalculationResult := diceCalculationResult gameState;
     winner := winner gameState;
     gameStarted := gameStarted gameState;
     gamePhase := dice_operation |}.

(** [!gameState.diceResults]: an array is truthy, so only [null] throws. *)
Definition applyDiceOperation (gameState : GameState) (operation : Operation)
  : result GameState :=
  match diceResults gameState with
  | None => Throw (Error msg_roll_first)
  | Some (dice1, dice2) =>
      let* diceCalculationResult := applyOperation dice1 dice2 operation in
      Ok {| players := players gameState;
            targetNumber := targetNumber gameState;
            currentPlayerIndex := currentPlayerIndex gameState;
            diceResults := diceResults gameState;
            diceCalculationResult := Some diceCalculationResult;
            winner := winner gameState;
            gameStarted := gameStarted gameState;
            gamePhase := final_operation |}
  end.

Definition with_currentNumber (player : Player) (newNumber : Z) : Player :=
  {| id := id player;
     name := name player;
     currentNumber := newNumber;
     color := color player |}.

(** [!gameState.diceCalculationResult] on a [number | null]: [null] and
    [0] are both falsy, so both take the [throw].  [players[i]] is
    [undefined] outside the array and reading its [currentNumber] throws.
    The remainder is only reached with a player found, hence with a
    non-empty array. *)
Definition applyFinalMove (gameState : GameState) (operation : Operation)
  : result GameState :=
  match diceCalculationResult gameState with
  | None => Throw (Error msg_dice_operation_first)
  | Some diceCalculation =>
      if diceCalculation =? 0 then Throw (Error msg_dice_operation_first)
      else
        match at_index (players gameState) (currentPlayerIndex gameState) with
        | None => Throw TypeError
        | Some currentPlayer =>
            let* newNumber :=
              applyOperation (currentNumber currentPlayer) diceCalculation
                             operation in
            let updatedPlayers :=
              map (fun player =>
                     if id player =? id currentPlayer
                     then with_currentNumber player newNumber
                     else player)
                  (players gameState) in
            let winner :=
              if newNumber =? targetNumber gameState
              then Some currentPlayer else None in
            let nextPlayerIndex :=
              match winner with
              | Some _ => currentPlayerIndex gameState
              | None =>
                  Z.rem (currentPlayerIndex gameState + 1)
                        (Z.of_nat (List.length (players gameState)))
              end in
            Ok {| players := updatedPlayers;
                  targetNumber := targetNumber gameState;
                  currentPlayerIndex := nextPlayerIndex;
                  diceResults := None;
                  diceCalculationResult := None;
                  winner := winner;
                  gameStarted := gameStarted gameState;
                  gamePhase := roll |}
        end
  end.

Definition getCurrentPlayer (gameState : GameState) : option Player :=
  at_index (players gameState) (currentPlayerIndex gameState).

(** ** The screen component: the callers of the engine

    The React state of [NumClashScreen] that the handlers below read and
    write.  [setX(v)] is the update of field [X]; [Alert.alert(title, m)]
    appends to [alerts]; an alert wrapped in [setTimeout] appends to
    [scheduled].  Console output is not part of the state. *)

Module NumClashScreen.

Inductive AlertText : Type :=
| Literal (text : string)
| MessageOf (error : Thrown).

Record State : Type := mkState {
  gameState : option GameState;
  showOperationsModal : bool;
  isTimerActive : bool;
  timerRef : bool;
  alerts : list (string * AlertText);
  scheduled : list (string * AlertText)
}.

Definition setGameState (newGameState : GameState) (c : State) : State :=
  {| gameState := Some newGameState;
     showOperationsModal := showOperationsModal c;
     isTimerActive := isTimerActive c;
     timerRef := timerRef c;
     alerts := alerts c;
     scheduled := scheduled c |}.

Definition setShowOperationsModal (b : bool) (c : State) : State :=
  {| gameState := gameState c;
     showOperationsModal := b;
     isTimerActive := isTimerActive c;
     timerRef := timerRef c;
     alerts := alerts c;
     scheduled := scheduled c |}.

Definition stopTimer (c : State) : State :=
  {| gameState := gameState c;
     showOperationsModal := showOperationsModal c;
     isTimerActive := false;
     timerRef := false;
     alerts := alerts c;
     scheduled := scheduled c |}.

Definition alert (title : string) (text : AlertText) (c : State) : State :=
  {| gameState := gameState c;
     showOperationsModal := showOperationsModal c;
     isTimerActive := isTimerActive c;
     timerRef := timerRef c;
     alerts := alerts c ++ [(title, text)];
     scheduled := scheduled c |}.

Definition alertLater (title : string) (text : AlertText) (c : State) : State :=
  {| gameState := gameState c;
     showOperationsModal := showOperationsModal c;
     isTimerActive := isTimerActive c;
     timerRef := timerRef c;
     alerts := alerts c;
     scheduled := scheduled c ++ [(title, text)] |}.

Definition is_phase (p q : GamePhase) : bool :=
  match p, q with
  | roll, roll | dice_operation, dice_operation
  | final_operation, final_operation => true
  | _, _ => false
  end.

Definition is_divide (operation : Operation) : bool :=
  match operation with
  | Divide => true
  | _ => false
  end.

(** [if (newGameState.winner) setTimeout(() => Alert.alert(...), 500)] *)
Definition announceWinner (newGameState : GameState) (c : State) : State :=
  match winner newGameState with
  | Some w =>
      alertLater "🎉 Tebrikler!" (Literal (name w ++ " oyunu kazandı!")) c
  | None => c
  end.

(** A handler returns the component state it leaves behind and, when an
    exception escapes it, that exception. *)
Definition Handler : Type := State -> State * option Thrown.

Definition selectDiceOperation (operation : Operation) : Handler :=
  fun c =>
    match gameState c with
    | None => (c, None)
    | Some gs =>
        match diceResults gs with
        | None => (c, None)
        | Some (dice1, dice2) =>
            if negb (is_phase (gamePhase gs) dice_operation) then (c, None)
            else if is_divide operation && (dice2 =? 0)
            then (alert "Hata" (Literal msg_division_by_zero) c, None)
            else if is_divide operation && negb (Z.rem dice1 dice2 =? 0)
            then (alert "Hata"
                        (Literal "Tam bölme yapılamaz! Başka bir işlem seçin.")
                        c, None)
            else
              match applyDiceOperation gs operation with
              | Ok newGameState =>
                  (stopTimer (setGameState newGameState c), None)
              | Throw error => (alert "Hata" (MessageOf error) c, None)
              end
        end
    end.

(** The division guard reads [currentPlayer.currentNumber] outside the
    [try] block. *)
Definition selectFinalOperation (operation : Operation) : Handler :=
  fun c =>
    match gameState c with
    | None => (c, None)
    | Some gs =>
        match diceCalculationResult gs with
        | None => (c, None)
        | Some diceCalculation =>
            if negb (is_phase (gamePhase gs) final_operation) then (c, None)
            else
              let attempt :=
                match applyFinalMove gs operation with
                | Ok newGameState =>
                    (announceWinner newGameState
                       (stopTimer
                          (setShowOperationsModal false
                             (setGameState newGameState c))), None)
                | Throw error => (alert "Hata" (MessageOf error) c, None)
                end in
              if is_divide operation then
                match getCurrentPlayer gs with
                | None => (c, Some TypeError)
                | Some currentPlayer =>
                    if negb (canDivide (currentNumber currentPlayer)
                                       diceCalculation)
                    then (alert "Hata"
                                (Literal "Bu işlem yapılamaz! Başka bir işlem seçin.")
                                c, None)
                    else attempt
                end
              else attempt
        end
    end.

Definition canUseDiceOperation (gs : option GameState) (operation : Operation)
  : bool :=
  match gs with
  | None => false
  | Some gs =>
      match diceResults gs with
      | None => false
      | Some (dice1, dice2) =>
          if is_divide operation
          then if dice2 =? 0 then false else Z.rem dice1 dice2 =? 0
          else true
      end
  end.

Definition canUseFinalOperation (gs : option GameState) (operation : Operation)
  : result bool :=
  match gs with
  | None => Ok false
  | Some gs =>
      match diceCalculationResult gs with
      | None => Ok false
      | Some diceCalculation =>
          if is_divide operation then
            match getCurrentPlayer gs with
            | None => Throw TypeError
            | Some currentPlayer =>
                Ok (canDivide (currentNumber currentPlayer) diceCalculation)
            end
          else Ok true
      end
  end.

(** [operations.filter(op => f(op))] for a predicate that may throw. *)
Fixpoint filter_ops (f : Operation -> result bool) (ops : list Operation)
  : result (list Operation) :=
  match ops with
  | [] => Ok []
  | op :: rest =>
      let* keep := f op in
      let* kept := filter_ops f rest in
      Ok (if keep then op :: kept else kept)
  end.

Definition operations : list Operation := [Plus; Minus; Times; Divide].

(** [validOperations[Math.floor(Math.random() * validOperations.length)]] *)
Definition pick (validOperations : list Operation) (r : Q) : option Operation :=
  at_index validOperations
           (Math_floor (r * inject_Z (Z.of_nat (List.length validOperations)))).

(** The timer's expiry.  An index outside [validOperations] would hand
    [undefined] to the engine, whose call then throws inside the [try];
    the [catch] only logs. *)
Definition handleTimeUp (r : Q) : Handler :=
  fun c =>
    match gameState c with
    | None => (c, None)
    | Some gs =>
        let c := stopTimer c in
        if is_phase (gamePhase gs) dice_operation
           && (match diceResults gs with Some _ => true | None => false end)
        then
          let validOperations :=
            filter (canUseDiceOperation (Some gs)) operations in
          match validOperations with
          | [] => (c, None)
          | _ :: _ =>
              match pick validOperations r with
              | None => (c, None)
              | Some randomOperation =>
                  match applyDiceOperation gs randomOperation with
                  | Ok newGameState => (setGameState newGameState c, None)
                  | Throw _ => (c, None)
                  end
              end
          end
        else if is_phase (gamePhase gs) final_operation
                && (match diceCalculationResult gs with
                    | Some _ => true | None => false end)
        then
          match filter_ops (canUseFinalOperation (Some gs)) operations with
          | Throw error => (c, Some error)
          | Ok [] => (c, None)
          | Ok validOperations =>
              match pick validOperations r with
              | None => (c, None)
              | Some randomOperation =>
                  match applyFinalMove gs randomOperation with
                  | Ok newGameState =>
                      (announceWinner newGameState
                         (setShowOperationsModal false
                            (setGameState newGameState c)), None)
                  | Throw _ => (c, None)
                  end
              end
          end
        else (c, None)
    end.

End NumClashScreen.

(** [HomeScreen]'s [playerOptions], the only values [onStartGame] is
    called with. *)
Definition playerOptions : list Z := [2; 3; 4].

(** ** Sessions

    The engine's three transitions as one step function, and the states a
    session can reach from a starting state by transitions that return. *)

Inductive Transition : Type :=
| RollDice (r1 r2 : Q)
| DiceOperation (operation : Operation)
| FinalMove (operation : Operation).

Definition legal_draws (t : Transition) : Prop :=
  match t with
  | RollDice r1 r2 => unit_draw r1 /\ unit_draw r2
  | _ => True
  end.

Definition transition (t : Transition) (gameState : GameState)
  : result GameState :=
  match t with
  | RollDice r1 r2 => Ok (rollDiceForGame gameState r1 r2)
  | DiceOperation operation => applyDiceOperation gameState operation
  | FinalMove operation => applyFinalMove gameState operation
  end.

Inductive reachable (start : GameState) : GameState -> Prop :=
| reachable_start : reachable start start
| reachable_step (gs gs' : GameState) (t : Transition) :
    reachable start gs -> legal_draws t -> transition t gs = Ok gs' ->
    reachable start gs'.

(** The data model's invariants on seats: identifiers are unique and the
    index of the active player is valid. *)
Definition seats_consistent (gameState : GameState) : Prop :=
  NoDup (map id (players gameState)) /\
  0 <= currentPlayerIndex gameState
    < Z.of_nat (List.length (players gameState)).

(** ** A sample session *)

Definition sample_players : list Player :=
  [ {| id := 1; name := "Ada"; currentNumber := 25; color := Some "#FF6B6B"%string |};
    {| id := 2; name := "Bora"; currentNumber := 5; color := Some "#4ECDC4"%string |} ].

Definition sample_state (dice : option (Z * Z)) (calc : option Z)
           (phase : GamePhase) : GameState :=
  {| players := sample_players;
     targetNumber := 50;
     currentPlayerIndex := 0;
     diceResults := dice;
     diceCalculationResult := calc;
     winner := None;
     gameStarted := true;
     gamePhase := phase |}.

(** The state reached from a fresh two-player game by rolling a double
    three and choosing the subtraction. *)
Definition after_double_three_minus : result GameState :=
  let* s0 := initializeGame 2 None (1 # 2) 0 in
  applyDiceOperation (rollDiceForGame s0 (1 # 3) (1 # 3)) Minus.

Definition sample_screen (gs : GameState) : NumClashScreen.State :=
  {| NumClashScreen.gameState := Some gs;
     NumClashScreen.showOperationsModal := true;
     NumClashScreen.isTimerActive := true;
     NumClashScreen.timerRef := true;
     NumClashScreen.alerts := [];
     NumClashScreen.scheduled := [] |}.

(** ** Dice, seats and turns: notions used by the session properties *)

(** A value a die can show. *)
Definition is_die (d : Z) : Prop := 1 <= d <= 6.

(** What the dice fields of a state say about its phase. *)
Definition phase_consistent (gameState : GameState) : Prop :=
  (diceResults gameState = None <-> gamePhase gameState = roll) /\
  (gamePhase gameState = final_operation ->
   diceCalculationResult gameState <> None) /\
  (diceCalculationResult gameState <> None ->
   diceResults gameState <> None).

(** The ranges of the numbers a state carries. *)
Definition numbers_in_range (gameState : GameState) : Prop :=
  Forall (fun p => 0 <= currentNumber p) (players gameState) /\
  (forall dice1 dice2, diceResults gameState = Some (dice1, dice2) ->
                       is_die dice1 /\ is_die dice2) /\
  (forall d, diceCalculationResult gameState = Some d -> 0 <= d <= 36).

(** [passes start k gs]: [gs] is reached from [start] by transitions that
    return, exactly [k] of which are final moves, none of them winning. *)
Inductive passes (start : GameState) : nat -> GameState -> Prop :=
| passes_start : passes start 0 start
| passes_roll (k : nat) (gs : GameState) (r1 r2 : Q) :
    passes start k gs -> passes start k (rollDiceForGame gs r1 r2)
| passes_dice (k : nat) (gs gs' : GameState) (op : Operation) :
    passes start k gs -> applyDiceOperation gs op = Ok gs' ->
    passes start k gs'
| passes_final (k : nat) (gs gs' : GameState) (op : Operation) :
    passes start k gs -> applyFinalMove gs op = Ok gs' ->
    winner gs' = None ->
    passes start (S k) gs'.

(** ** Display helpers *)

Definition diceFaces : list (Z * string) :=
  [(1, "⚀"); (2, "⚁"); (3, "⚂"); (4, "⚃"); (5, "⚄"); (6, "⚅")]%string.

(** [obj[key]] on an object literal with numeric keys. *)
Fixpoint property_of (obj : list (Z * string)) (key : Z) : option string :=
  match obj with
  | [] => None
  | (k, v) :: rest => if k =? key then Some v else property_of rest key
  end.

(** [diceFaces[number] || '⚀']; every face is a non-empty string. *)
Definition getDiceFace (number : Z) : string :=
  match property_of diceFaces number with
  | Some face => face
  | None => "⚀"
  end.

(** ** The player-names modal *)

Module NamesModal.

Record State : Type := mkState {
  playerNames : list string;
  showPlayerNamesModal : bool;
  gameState : option GameState;
  alerts : list (string * string)
}.

(** [playerNames.some(name => name.trim() === '')] guards the start. *)
Definition startGameWithNames (playerCount : Z) (rTarget rStart : Q)
           (c : State) : State :=
  if existsb (fun name => String.eqb (trim name) "") (playerNames c)
  then {| playerNames := playerNames c;
          showPlayerNamesModal := showPlayerNamesModal c;
          gameState := gameState c;
          alerts := alerts c
                    ++ [("Uyarı", "Lütfen tüm oyuncu isimlerini girin!")]%string |}
  else
    match initializeGame playerCount (Some (playerNames c)) rTarget rStart with
    | Ok initialState =>
        {| playerNames := playerNames c;
           showPlayerNamesModal := false;
           gameState := Some initialState;
           alerts := alerts c |}
    | Throw _ =>
        {| playerNames := playerNames c;
           showPlayerNamesModal := false;
           gameState := gameState c;
           alerts := alerts c |}
    end.

End NamesModal.

(** ** The application shell

    [App] holds the current screen and the player count; the home screen
    shows one button per entry of [playerOptions], and pressing it calls
    [onStartGame] with that entry's count. *)

Module App.

Inductive AppScreen : Type :=
| home
| game.

Record State : Type := mkState {
  currentScreen : AppScreen;
  playerCount : Z
}.

Definition initial : State := {| currentScreen := home; playerCount := 2 |}.

Definition handleStartGame (count : Z) (s : State) : State :=
  {| currentScreen := game; playerCount := count |}.

Definition handleBackToHome (s : State) : State :=
  {| currentScreen := home; playerCount := playerCount s |}.

Inductive Event : Type :=
| PressOption (index : nat)
| PressBack.

(** The option buttons call [onStartGame] from an animation callback and
    the back buttons call [onBackToHome], also from alert buttons: either
    may run whatever screen is shown by then. *)
Definition step (s : State) (e : Event) : State :=
  match e with
  | PressOption index =>
      match nth_error playerOptions index with
      | Some count => handleStartGame count s
      | None => s
      end
  | PressBack => handleBackToHome s
  end.

Definition run (events : list Event) (s : State) : State :=
  fold_left step events s.

End App.

(** ** The progress bar of the turn timer

    The effect of [LinearProgress] for an active bar: [activate] is the
    body run when [isActive] becomes true, [tick] one firing of the
    interval it registers.  [completions] counts the calls of
    [onComplete].  A cleared interval does not fire. *)

Module LinearProgress.

Record State : Type := mkState {
  progress : Q;
  currentProgress : Q;
  intervalRef : bool;
  completions : nat
}.

Definition activate (st : State) : State :=
  {| progress := 100;
     currentProgress := 100;
     intervalRef := true;
     completions := completions st |}.

Definition decrementAmount (duration : Z) : Q := (100 / inject_Z duration)%Q.

Definition tick (duration : Z) (st : State) : State :=
  if intervalRef st then
    let currentProgress := (currentProgress st - decrementAmount duration)%Q in
    let progress := Qmax 0 currentProgress in
    if Qle_bool currentProgress 0
    then {| progress := progress;
            currentProgress := currentProgress;
            intervalRef := false;
            completions := S (completions st) |}
    else {| progress := progress;
            currentProgress := currentProgress;
            intervalRef := true;
            completions := completions st |}
  else st.

Fixpoint ticks (duration : Z) (n : nat) (st : State) : State :=
  match n with
  | O => st
  | S k => tick duration (ticks duration k st)
  end.

End LinearProgress.


Definition sample_names_modal (names : list string) : NamesModal.State :=
  {| NamesModal.playerNames := names;
     NamesModal.showPlayerNamesModal := true;
     NamesModal.gameState := None;
     NamesModal.alerts := [] |}.


(** * Properties *)

(** ** Arithmetic operation engine *)

Section Arithmetic.

Variables a b : Z.

Lemma rem_zero_iff_mod_zero : b <> 0 -> (Z.rem a b = 0 <-> a mod b = 0).
Proof.
  intros Hb.
  rewrite (Z.rem_divide a b Hb), (Z.mod_divide a b Hb).
  reflexivity.
Qed.

Lemma quot_is_div_when_exact : b <> 0 -> Z.rem a b = 0 -> Z.quot a b = a / b.
Proof.
  intros Hb Hrem.
  apply (Z.mul_reg_l _ _ b Hb).
  assert (Hq : a = b * Z.quot a b) by (pose proof (Z.quot_rem' a b); lia).
  assert (Hd : a = b * (a / b)).
  { apply Z.div_exact; [exact Hb | apply rem_zero_iff_mod_zero; assumption]. }
  congruence.
Qed.

Lemma canDivide_true_iff : canDivide a b = true <-> b <> 0 /\ a mod b = 0.
Proof.
  unfold canDivide.
  destruct (Z.eqb_spec b 0) as [Hb | Hb].
  - split; [discriminate | intros [H _]; contradiction].
  - rewrite Z.eqb_eq, (rem_zero_iff_mod_zero Hb). tauto.
Qed.

Lemma applyOperation_divide_by_zero :
  b = 0 -> applyOperation a b Divide = Throw (Error msg_division_by_zero).
Proof.
  intros ->. reflexivity.
Qed.

Lemma applyOperation_divide_inexact :
  b <> 0 -> a mod b <> 0 ->
  applyOperation a b Divide = Throw (Error msg_inexact_division).
Proof.
  intros Hb Hmod. unfold applyOperation.
  destruct (Z.eqb_spec b 0) as [|_]; [contradiction|].
  destruct (Z.eqb_spec (Z.rem a b) 0) as [Hrem | _]; [|reflexivity].
  exfalso. apply Hmod, rem_zero_iff_mod_zero; assumption.
Qed.

Lemma applyOperation_divide_exact :
  b <> 0 -> a mod b = 0 -> applyOperation a b Divide = Ok (a / b).
Proof.
  intros Hb Hmod. unfold applyOperation.
  destruct (Z.eqb_spec b 0) as [|_]; [contradiction|].
  assert (Hrem : Z.rem a b = 0) by (apply rem_zero_iff_mod_zero; assumption).
  rewrite Hrem. cbn. f_equal. apply quot_is_div_when_exact; assumption.
Qed.

Lemma applyOperation_divide_succeeds_iff :
  (exists q, applyOperation a b Divide = Ok q) <-> canDivide a b = true.
Proof.
  unfold applyOperation, canDivide.
  destruct (Z.eqb_spec b 0) as [Hb | Hb].
  - split; [intros [q Hq]; discriminate | discriminate].
  - destruct (Z.rem a b =? 0); cbn; split; try discriminate; eauto.
    intros [q Hq]; discriminate.
Qed.

End Arithmetic.

(** On the integers themselves: addition returns [a + b], multiplication
    [a * b], and subtraction the absolute difference [|a - b|], which is
    never negative and is the signed difference only when [b <= a]. *)
Lemma applyOperation_on_integers (a b : Z) :
  applyOperation a b Plus = Ok (a + b) /\
  applyOperation a b Times = Ok (a * b) /\
  applyOperation a b Minus = Ok (Z.abs (a - b)) /\
  (exists r, applyOperation a b Minus = Ok r /\ 0 <= r /\
             (r = a - b \/ r = b - a)) /\
  (applyOperation a b Minus = Ok (a - b) <-> b <= a).
Proof.
  repeat split; cbn.
  - exists (Z.abs (a - b)). repeat split; lia.
  - intros H. injection H as H. lia.
  - intros H. f_equal. lia.
Qed.

Lemma nearest_double_safe (x : Z) :
  Z.abs x <= 2 ^ 53 -> nearest_double x = Finite x.
Proof.
  intros Hx. unfold nearest_double.
  destruct (Z.leb_spec (Z.abs x) (2 ^ 53)) as [_|Hgt]; [reflexivity|].
  exfalso. apply (Z.lt_irrefl (2 ^ 53)).
  exact (Z.lt_le_trans _ _ _ Hgt Hx).
Qed.

(** C4, as the code has it.  For all integers [a] and [b] of magnitude at
    most [2 ^ 53]: addition returns [a + b], multiplication [a * b] and
    subtraction the absolute difference [|a - b|], not the signed
    difference, whenever that value is itself of magnitude at most
    [2 ^ 53]; and for all [a] and [b] the result of the subtraction is
    never negative. *)
Theorem applyOperation_exact_on_safe_integers (a b : Z) :
  Z.abs a <= 2 ^ 53 -> Z.abs b <= 2 ^ 53 ->
  (Z.abs (a + b) <= 2 ^ 53 ->
   applyOperation_double a b Plus = Ok (Finite (a + b))) /\
  (Z.abs (a * b) <= 2 ^ 53 ->
   applyOperation_double a b Times = Ok (Finite (a * b))) /\
  (Z.abs (a - b) <= 2 ^ 53 ->
   applyOperation_double a b Minus = Ok (Finite (Z.abs (a - b))) /\
   (applyOperation_double a b Minus = Ok (Finite (a - b)) <-> b <= a)) /\
  (forall n, applyOperation_double a b Minus = Ok (Finite n) -> 0 <= n) /\
  (forall op r, op <> Divide -> applyOperation a b op = Ok r ->
                Z.abs r <= 2 ^ 53 ->
                applyOperation_double a b op = Ok (Finite r)).
Proof.
  intros Ha Hb.
  destruct (applyOperation_on_integers a b) as (Hplus & Htimes & Hminus & _ & _).
  split; [|split; [|split; [|split]]].
  - intros Hsum. cbn. rewrite (nearest_double_safe _ Hsum). reflexivity.
  - intros Hprod. cbn. rewrite (nearest_double_safe _ Hprod). reflexivity.
  - intros Hdiff. cbn. rewrite (nearest_double_safe _ Hdiff). cbn.
    split; [reflexivity|]. split.
    + intros H. injection H as H. lia.
    + intros H. do 2 f_equal. lia.
  - intros n. cbn. destruct (nearest_double (a - b)) as [d|]; cbn;
      [|discriminate].
    intros H. injection H as <-. apply Z.abs_nonneg.
  - intros op r Hop Hr Hbound. destruct op; [| | |contradiction].
    + rewrite Hplus in Hr. injection Hr as <-. cbn.
      rewrite (nearest_double_safe _ Hbound). reflexivity.
    + rewrite Hminus in Hr. injection Hr as <-. cbn.
      rewrite Z.abs_idemp in Hbound.
      rewrite (nearest_double_safe _ Hbound). reflexivity.
    + rewrite Htimes in Hr. injection Hr as <-. cbn.
      rewrite (nearest_double_safe _ Hbound). reflexivity.
Qed.

Lemma applyOperation_exact_on_safe_integers_witness :
  applyOperation_double 3 5 Plus = Ok (Finite 8) /\
  applyOperation_double 3 5 Times = Ok (Finite 15) /\
  applyOperation_double 3 5 Minus = Ok (Finite 2) /\
  applyOperation_double 3 5 Minus <> Ok (Finite (3 - 5)).
Proof.
  assert (H3 : Z.abs 3 <= 2 ^ 53) by (vm_compute; discriminate).
  assert (H5 : Z.abs 5 <= 2 ^ 53) by (vm_compute; discriminate).
  destruct (applyOperation_exact_on_safe_integers 3 5 H3 H5)
    as (Hplus & Htimes & Hminus & _ & _).
  split; [apply Hplus; vm_compute; discriminate|].
  split; [apply Htimes; vm_compute; discriminate|].
  destruct Hminus as [Habs Hsigned]; [vm_compute; discriminate|].
  split; [exact Habs|].
  intros H. apply Hsigned in H. lia.
Defined.

(** C4, as the specification states it, fails beyond [2 ^ 53]: the
    integer [5 * 36 ^ 10] and [1] are both doubles, and their sum in the
    code is the first of them, not the integer sum. *)
Lemma applyOperation_rounds_large_sum_counterexample :
  18280792200314880 = 5 * 36 ^ 10 /\
  is_double 18280792200314880 /\ is_double 1 /\
  applyOperation_double 18280792200314880 1 Plus
  = Ok (Finite 18280792200314880) /\
  applyOperation_double 18280792200314880 1 Plus
  <> Ok (Finite (18280792200314880 + 1)).
Proof.
  split; [reflexivity|].
  split; [vm_compute; reflexivity|].
  split; [vm_compute; reflexivity|].
  split; [vm_compute; reflexivity|].
  vm_compute. discriminate.
Qed.

(** C5.  For all integers [a] and [b]: division fails with
    [IllegalOperation] when [b = 0] (the division-by-zero message) or when
    [a] is not evenly divisible by [b], and otherwise returns the exact
    integer quotient; [canDivide a b] is true exactly when [b <> 0] and
    [a mod b = 0], which is exactly when the division succeeds. *)
Theorem applyOperation_divide_canDivide (a b : Z) :
  (b = 0 ->
   applyOperation a b Divide = Throw (Error msg_division_by_zero) /\
   IllegalOperation (Error msg_division_by_zero)) /\
  (b <> 0 -> a mod b <> 0 ->
   exists e, applyOperation a b Divide = Throw e /\ IllegalOperation e) /\
  (b <> 0 -> a mod b = 0 ->
   applyOperation a b Divide = Ok (a / b) /\ (a / b) * b = a) /\
  (canDivide a b = true <-> b <> 0 /\ a mod b = 0) /\
  (canDivide a b = true <-> exists q, applyOperation a b Divide = Ok q).
Proof.
  split; [|split; [|split; [|split]]].
  - intros Hb. split; [apply applyOperation_divide_by_zero, Hb | now left].
  - intros Hb Hmod. exists (Error msg_inexact_division).
    split; [apply applyOperation_divide_inexact; assumption | now right].
  - intros Hb Hmod. split; [apply applyOperation_divide_exact; assumption|].
    pose proof (proj2 (Z.div_exact a b Hb) Hmod). lia.
  - apply canDivide_true_iff.
  - symmetry. apply applyOperation_divide_succeeds_iff.
Qed.

Lemma applyOperation_divide_canDivide_witness :
  applyOperation 7 0 Divide = Throw (Error msg_division_by_zero) /\
  (exists e, applyOperation 7 2 Divide = Throw e /\ IllegalOperation e) /\
  applyOperation (-12) 4 Divide = Ok (-3) /\
  canDivide (-12) 4 = true /\
  canDivide 7 2 = false.
Proof.
  destruct (applyOperation_divide_canDivide 7 0) as (Hzero & _).
  destruct (applyOperation_divide_canDivide 7 2) as (_ & Hinexact & _ & Hcan72 & _).
  destruct (applyOperation_divide_canDivide (-12) 4) as (_ & _ & Hexact & Hcan & _).
  split; [apply Hzero; reflexivity|].
  split; [apply Hinexact; [lia | vm_compute; discriminate]|].
  split; [apply Hexact; [lia | reflexivity]|].
  split; [apply Hcan; split; [lia | reflexivity]|].
  destruct (canDivide 7 2) eqn:E; [|reflexivity].
  exfalso. destruct (proj1 Hcan72 eq_refl) as [_ Hmod]. vm_compute in Hmod.
  discriminate.
Defined.

(** ** Random helpers *)

Lemma floor_between (x : Q) (lo hi : Z) :
  (inject_Z lo <= x)%Q -> (x < inject_Z (hi + 1))%Q ->
  lo <= Math_floor x <= hi.
Proof.
  intros Hlo Hhi. unfold Math_floor. split.
  - rewrite <- (Qfloor_Z lo). apply Qfloor_resp_le, Hlo.
  - enough (Qfloor x < hi + 1) by lia.
    rewrite Zlt_Qlt.
    eapply Qle_lt_trans; [apply Qfloor_le | exact Hhi].
Qed.

Lemma scaled_draw_bounds (r : Q) (n : Z) :
  0 < n -> unit_draw r ->
  (0 <= r * inject_Z n)%Q /\ (r * inject_Z n < inject_Z n)%Q.
Proof.
  intros Hn [H0 H1].
  assert (Hpos : (inject_Z 0 < inject_Z n)%Q) by (rewrite <- Zlt_Qlt; exact Hn).
  split.
  - apply Qmult_le_0_compat; [exact H0 | apply Qlt_le_weak, Hpos].
  - rewrite <- (Qmult_1_l (inject_Z n)) at 2.
    apply Qmult_lt_compat_r; assumption.
Qed.

Lemma generateTargetNumber_range (r : Q) :
  unit_draw r -> MIN_TARGET <= generateTargetNumber r <= MAX_TARGET.
Proof.
  intros Hr. unfold generateTargetNumber.
  destruct (scaled_draw_bounds r (MAX_TARGET - MIN_TARGET + 1) eq_refl Hr)
    as [Hlo Hhi].
  apply floor_between.
  - rewrite <- (Qplus_0_l (inject_Z MIN_TARGET)) at 1.
    apply Qplus_le_compat; [exact Hlo | apply Qle_refl].
  - change (inject_Z (MAX_TARGET + 1))
      with (inject_Z (MAX_TARGET - MIN_TARGET + 1) + inject_Z MIN_TARGET)%Q.
    apply Qplus_lt_le_compat; [exact Hhi | apply Qle_refl].
Qed.

Lemma rollDice_range (r : Q) : unit_draw r -> 1 <= rollDice r <= 6.
Proof.
  intros Hr. unfold rollDice.
  destruct (scaled_draw_bounds r 6 eq_refl Hr) as [Hlo Hhi].
  enough (0 <= Math_floor (r * 6) <= 5) by lia.
  apply floor_between; assumption.
Qed.

(** ** Game state machine *)

Lemma applyDiceOperation_Ok_inv (gs gs' : GameState) (op : Operation) :
  applyDiceOperation gs op = Ok gs' ->
  exists dice1 dice2 r,
    diceResults gs = Some (dice1, dice2) /\
    applyOperation dice1 dice2 op = Ok r /\
    gs' = {| players := players gs;
             targetNumber := targetNumber gs;
             currentPlayerIndex := currentPlayerIndex gs;
             diceResults := diceResults gs;
             diceCalculationResult := Some r;
             winner := winner gs;
             gameStarted := gameStarted gs;
             gamePhase := final_operation |}.
Proof.
  unfold applyDiceOperation.
  destruct (diceResults gs) as [[dice1 dice2]|]; [|discriminate].
  destruct (applyOperation dice1 dice2 op) as [r|e] eqn:Hop; cbn; [|discriminate].
  intros H. injection H as <-. exists dice1, dice2, r. auto.
Qed.

Lemma applyFinalMove_Ok_inv (gs gs' : GameState) (op : Operation) :
  applyFinalMove gs op = Ok gs' ->
  exists d cur newNumber,
    diceCalculationResult gs = Some d /\ d <> 0 /\
    at_index (players gs) (currentPlayerIndex gs) = Some cur /\
    applyOperation (currentNumber cur) d op = Ok newNumber /\
    gs' = {| players :=
               map (fun player =>
                      if id player =? id cur
                      then with_currentNumber player newNumber
                      else player) (players gs);
             targetNumber := targetNumber gs;
             currentPlayerIndex :=
               if newNumber =? targetNumber gs
               then currentPlayerIndex gs
               else Z.rem (currentPlayerIndex gs + 1)
                          (Z.of_nat (List.length (players gs)));
             diceResults := None;
             diceCalculationResult := None;
             winner := if newNumber =? targetNumber gs then Some cur else None;
             gameStarted := gameStarted gs;
             gamePhase := roll |}.
Proof.
  unfold applyFinalMove.
  destruct (diceCalculationResult gs) as [d|]; [|discriminate].
  destruct (Z.eqb_spec d 0) as [|Hd]; [discriminate|].
  destruct (at_index (players gs) (currentPlayerIndex gs)) as [cur|];
    [|discriminate].
  destruct (applyOperation (currentNumber cur) d op) as [n|e] eqn:Hop; cbn;
    [|discriminate].
  intros H. injection H as <-. exists d, cur, n.
  repeat split; try assumption.
  destruct (n =? targetNumber gs); reflexivity.
Qed.

Lemma applyFinalMove_Ok_intro (gs : GameState) (op : Operation)
      (d : Z) (cur : Player) (newNumber : Z) :
  diceCalculationResult gs = Some d -> d <> 0 ->
  at_index (players gs) (currentPlayerIndex gs) = Some cur ->
  applyOperation (currentNumber cur) d op = Ok newNumber ->
  exists gs', applyFinalMove gs op = Ok gs'.
Proof.
  intros Hd Hnz Hcur Hop. unfold applyFinalMove.
  rewrite Hd. destruct (Z.eqb_spec d 0) as [|_]; [contradiction|].
  rewrite Hcur, Hop. cbn. eauto.
Qed.

(** C6.  [applyDiceOperation] fails with the [PreconditionError] that asks
    to roll first when [diceResults] is absent; with [diceResults] the pair
    [(dice1, dice2)] it computes [applyOperation dice1 dice2 op], hands any
    failure of it on unchanged, and on success stores the result in
    [diceCalculationResult] and moves to the final-operation phase, every
    other field being kept. *)
Theorem applyDiceOperation_spec (gs : GameState) (op : Operation) :
  (diceResults gs = None ->
   applyDiceOperation gs op = Throw (Error msg_roll_first) /\
   PreconditionError (Error msg_roll_first)) /\
  (forall dice1 dice2, diceResults gs = Some (dice1, dice2) ->
     (forall e, applyOperation dice1 dice2 op = Throw e ->
                applyDiceOperation gs op = Throw e) /\
     (forall r, applyOperation dice1 dice2 op = Ok r ->
        exists gs', applyDiceOperation gs op = Ok gs' /\
          diceCalculationResult gs' = Some r /\
          gamePhase gs' = final_operation /\
          diceResults gs' = Some (dice1, dice2) /\
          players gs' = players gs /\
          targetNumber gs' = targetNumber gs /\
          currentPlayerIndex gs' = currentPlayerIndex gs /\
          winner gs' = winner gs /\
          gameStarted gs' = gameStarted gs)).
Proof.
  unfold applyDiceOperation. split.
  - intros ->. split; [reflexivity | now left].
  - intros dice1 dice2 ->. split.
    + intros e ->. reflexivity.
    + intros r ->. cbn. eexists. split; [reflexivity|]. cbn. repeat split.
Qed.

Lemma applyDiceOperation_spec_witness :
  applyDiceOperation (sample_state None None roll) Times
    = Throw (Error msg_roll_first) /\
  applyDiceOperation (sample_state (Some (4, 3)) None dice_operation) Divide
    = Throw (Error msg_inexact_division) /\
  exists gs',
    applyDiceOperation (sample_state (Some (4, 4)) None dice_operation) Times
      = Ok gs' /\
    diceCalculationResult gs' = Some 16 /\ gamePhase gs' = final_operation.
Proof.
  split; [|split].
  - apply (applyDiceOperation_spec (sample_state None None roll) Times).
    reflexivity.
  - apply (proj2 (applyDiceOperation_spec
                    (sample_state (Some (4, 3)) None dice_operation) Divide)
                 4 3 eq_refl).
    reflexivity.
  - destruct (proj2 (proj2 (applyDiceOperation_spec
                    (sample_state (Some (4, 4)) None dice_operation) Times)
                 4 4 eq_refl) 16 eq_refl) as (gs' & Hok & Hcalc & Hphase & _).
    exists gs'. auto.
Defined.

(** C7.  For every state and every outcome of the two draws, the roll
    returns a state whose [diceResults] is an ordered pair of integers each
    in [1, 6] and whose phase is dice-operation, while [players],
    [currentPlayerIndex], [targetNumber] and [winner] are unchanged. *)
Theorem rollDiceForGame_spec (gs : GameState) (r1 r2 : Q) :
  unit_draw r1 -> unit_draw r2 ->
  exists dice1 dice2,
    diceResults (rollDiceForGame gs r1 r2) = Some (dice1, dice2) /\
    1 <= dice1 <= 6 /\ 1 <= dice2 <= 6 /\
    gamePhase (rollDiceForGame gs r1 r2) = dice_operation /\
    players (rollDiceForGame gs r1 r2) = players gs /\
    currentPlayerIndex (rollDiceForGame gs r1 r2) = currentPlayerIndex gs /\
    targetNumber (rollDiceForGame gs r1 r2) = targetNumber gs /\
    winner (rollDiceForGame gs r1 r2) = winner gs.
Proof.
  intros H1 H2. exists (rollDice r1), (rollDice r2). cbn.
  split; [reflexivity|].
  split; [apply rollDice_range, H1|].
  split; [apply rollDice_range, H2|].
  repeat split.
Qed.

Lemma unit_draw_half : unit_draw (1 # 2).
Proof. split; [discriminate | reflexivity]. Defined.

Lemma unit_draw_zero : unit_draw 0.
Proof. split; [discriminate | reflexivity]. Defined.

Lemma rollDiceForGame_spec_witness :
  exists dice1 dice2,
    diceResults (rollDiceForGame (sample_state None None roll) (1 # 2) 0)
      = Some (dice1, dice2) /\
    1 <= dice1 <= 6 /\ 1 <= dice2 <= 6.
Proof.
  destruct (rollDiceForGame_spec (sample_state None None roll) (1 # 2) 0
              unit_draw_half unit_draw_zero)
    as (dice1 & dice2 & Hdice & Hr1 & Hr2 & _).
  exists dice1, dice2. auto.
Defined.

(** ** Session bootstrap *)

Lemma push_seats_length names (remaining : nat) :
  forall i acc,
    List.length (push_seats names i remaining acc)
    = (List.length acc + remaining)%nat.
Proof.
  induction remaining as [|k IH]; intros i acc; cbn.
  - lia.
  - rewrite IH, length_app. cbn. lia.
Qed.

Lemma push_seats_ids names (remaining : nat) :
  forall i acc,
    map id (push_seats names i remaining acc)
    = map id acc ++ map (fun k => i + Z.of_nat k + 1) (seq 0 remaining).
Proof.
  induction remaining as [|k IH]; intros i acc.
  - cbn. rewrite app_nil_r. reflexivity.
  - cbn [push_seats]. rewrite IH, map_app, <- app_assoc. f_equal.
    cbn [map seq app id seat]. f_equal; [f_equal; lia|].
    rewrite <- seq_shift, map_map. apply map_ext. intros n. lia.
Qed.

Lemma push_seats_initial_number names (remaining : nat) :
  forall i acc,
    Forall (fun p => currentNumber p = INITIAL_PLAYER_NUMBER) acc ->
    Forall (fun p => currentNumber p = INITIAL_PLAYER_NUMBER)
           (push_seats names i remaining acc).
Proof.
  induction remaining as [|k IH]; intros i acc Hacc; cbn; [exact Hacc|].
  apply IH, Forall_app. split; [exact Hacc|]. repeat constructor.
Qed.

Lemma initializeGame_returns playerCount names rTarget rStart :
  exists gs,
    initializeGame playerCount names rTarget rStart = Ok gs /\
    List.length (players gs) = Z.to_nat playerCount /\
    Forall (fun p => currentNumber p = INITIAL_PLAYER_NUMBER) (players gs) /\
    targetNumber gs = generateTargetNumber rTarget /\
    diceResults gs = None /\ diceCalculationResult gs = None /\
    winner gs = None /\ gamePhase gs = roll.
Proof.
  eexists. split; [reflexivity|]. cbn.
  split; [apply push_seats_length|].
  split; [apply push_seats_initial_number; constructor|].
  repeat split.
Qed.

(** C3, as the code has it.  [initializeGame] has no range check: for every
    integer [playerCount], inside or outside [2, 4], it returns a
    [GameState] in the roll phase with one player per seat below
    [playerCount], each at the initial number, and it never throws.  The
    range is kept by the caller alone: the home screen offers the counts
    2, 3 and 4. *)
Theorem initializeGame_unchecked_playerCount
        (playerCount : Z) (names : option (list string)) (rTarget rStart : Q) :
  (exists gs,
     initializeGame playerCount names rTarget rStart = Ok gs /\
     List.length (players gs) = Z.to_nat playerCount /\
     Forall (fun p => currentNumber p = INITIAL_PLAYER_NUMBER) (players gs) /\
     gamePhase gs = roll) /\
  (forall e, initializeGame playerCount names rTarget rStart <> Throw e) /\
  Forall (fun count => 2 <= count <= 4) playerOptions.
Proof.
  split; [|split].
  - destruct (initializeGame_returns playerCount names rTarget rStart)
      as (gs & Hok & Hlen & Hnum & _ & _ & _ & _ & Hphase).
    exists gs. auto.
  - intros e. discriminate.
  - unfold playerOptions. repeat constructor; lia.
Qed.

(** C3, as the specification states it, fails: a count of five, and a
    count of one, are accepted. *)
Lemma initializeGame_accepts_out_of_range_counterexample :
  (4 < 5 /\ exists gs,
     initializeGame 5 None (1 # 2) 0 = Ok gs /\
     List.length (players gs) = 5%nat /\
     forall e, initializeGame 5 None (1 # 2) 0 <> Throw e) /\
  (1 < 2 /\ exists gs,
     initializeGame 1 None (1 # 2) 0 = Ok gs /\
     List.length (players gs) = 1%nat /\
     forall e, initializeGame 1 None (1 # 2) 0 <> Throw e).
Proof.
  split; (split; [lia|]); eexists;
    (split; [reflexivity|]); (split; [reflexivity|]); intros e; discriminate.
Qed.

(** ** The final move *)

Lemma at_index_Some_range {A : Type} (arr : list A) (i : Z) (x : A) :
  at_index arr i = Some x -> 0 <= i < Z.of_nat (List.length arr).
Proof.
  unfold at_index. destruct (Z.ltb_spec i 0) as [|Hi]; [discriminate|].
  intros H.
  assert (Hlt : (Z.to_nat i < List.length arr)%nat)
    by (apply nth_error_Some; congruence).
  lia.
Qed.

Lemma at_index_map {A B : Type} (f : A -> B) (arr : list A) (i : Z) :
  at_index (map f arr) i = option_map f (at_index arr i).
Proof.
  unfold at_index. destruct (i <? 0); [reflexivity|].
  apply nth_error_map.
Qed.

Lemma msg_dice_operation_first_distinct :
  msg_dice_operation_first <> msg_division_by_zero /\
  msg_dice_operation_first <> msg_inexact_division /\
  msg_dice_operation_first <> msg_roll_first.
Proof. repeat split; discriminate. Qed.

Lemma applyOperation_never_asks_for_dice (n1 n2 : Z) (op : Operation) :
  applyOperation n1 n2 op <> Throw (Error msg_dice_operation_first).
Proof.
  destruct op; cbn; try discriminate.
  destruct (n2 =? 0); [discriminate|].
  destruct (Z.rem n1 n2 =? 0); discriminate.
Qed.

(** C2, on the code.  [applyFinalMove] throws the "dice operation first"
    error exactly when [diceCalculationResult] is falsy, that is when it is
    absent or when it is the stored integer [0]; the claim's "if and only
    if absent" fails on the stored result [0]. *)
Theorem applyFinalMove_precondition_iff_falsy (gs : GameState) (op : Operation) :
  applyFinalMove gs op = Throw (Error msg_dice_operation_first) <->
  diceCalculationResult gs = None \/ diceCalculationResult gs = Some 0.
Proof.
  unfold applyFinalMove. split.
  - destruct (diceCalculationResult gs) as [d|]; [|auto].
    destruct (Z.eqb_spec d 0) as [->|_]; [auto|].
    destruct (at_index (players gs) (currentPlayerIndex gs)) as [cur|];
      [|discriminate].
    pose proof (applyOperation_never_asks_for_dice (currentNumber cur) d op)
      as Hop.
    destruct (applyOperation (currentNumber cur) d op) as [n|e]; cbn;
      [discriminate|].
    intros H. exfalso. apply Hop. injection H as ->. reflexivity.
  - intros [-> | ->]; reflexivity.
Qed.

(** C1, at the input on which the code departs from it.  After a double
    three and the subtraction the stored dice result is [0]; it is present,
    and adding it to the active player's number succeeds with [5], yet
    [applyFinalMove] throws for every operation instead of completing the
    move. *)
Theorem applyFinalMove_stuck_on_zero_result :
  exists s cur,
    after_double_three_minus = Ok s /\
    diceResults s = Some (3, 3) /\
    diceCalculationResult s = Some 0 /\
    gamePhase s = final_operation /\
    getCurrentPlayer s = Some cur /\
    applyOperation (currentNumber cur) 0 Plus = Ok 5 /\
    forall op, applyFinalMove s op = Throw (Error msg_dice_operation_first).
Proof.
  eexists. eexists.
  split; [reflexivity|]. cbn.
  repeat (split; [reflexivity|]).
  intros op. reflexivity.
Qed.


(** C10, as the code has it.  When [applyFinalMove] sets [winner], the
    stored value is the acting player's record as it was before the move:
    its [currentNumber] is the number the player had before the move,
    which is not the target unless the player already stood on the
    target, while the entry of the acting seat in the returned [players]
    carries the target. *)
Theorem winner_is_pre_move_record
        (gs gs' : GameState) (op : Operation) (w : Player) :
  applyFinalMove gs op = Ok gs' ->
  winner gs' = Some w ->
  exists cur d,
    getCurrentPlayer gs = Some cur /\
    w = cur /\
    currentNumber w = currentNumber cur /\
    diceCalculationResult gs = Some d /\
    applyOperation (currentNumber cur) d op = Ok (targetNumber gs) /\
    at_index (players gs') (currentPlayerIndex gs)
      = Some (with_currentNumber cur (targetNumber gs)) /\
    currentPlayerIndex gs' = currentPlayerIndex gs /\
    (currentNumber cur <> targetNumber gs ->
     currentNumber w <> targetNumber gs /\
     at_index (players gs') (currentPlayerIndex gs) <> Some w).
Proof.
  intros Hok Hw.
  destruct (applyFinalMove_Ok_inv gs gs' op Hok)
    as (d & cur & n & Hd & _ & Hcur & Hop & ->).
  cbn in Hw |- *.
  destruct (Z.eqb_spec n (targetNumber gs)) as [Hn|_]; [|discriminate].
  injection Hw as <-. subst n.
  exists cur, d. unfold getCurrentPlayer.
  assert (Hentry :
            at_index
              (map (fun player =>
                      if id player =? id cur
                      then with_currentNumber player (targetNumber gs)
                      else player) (players gs)) (currentPlayerIndex gs)
            = Some (with_currentNumber cur (targetNumber gs))).
  { rewrite at_index_map, Hcur. cbn. rewrite Z.eqb_refl. reflexivity. }
  do 7 (split; [assumption || reflexivity|]).
  intros Hne. split; [exact Hne|].
  rewrite Hentry. intros H. injection H as H.
  apply Hne. rewrite <- H. reflexivity.
Qed.

Lemma winner_is_pre_move_record_witness :
  exists gs' w,
    applyFinalMove (sample_state (Some (5, 5)) (Some 25) final_operation) Plus
      = Ok gs' /\
    winner gs' = Some w /\
    currentNumber w = 25 /\
    option_map currentNumber (at_index (players gs') 0) = Some 50.
Proof.
  eexists. eexists.
  split; [reflexivity|]. split; [reflexivity|].
  destruct (winner_is_pre_move_record
              (sample_state (Some (5, 5)) (Some 25) final_operation)
              _ Plus _ eq_refl eq_refl)
    as (cur & d & Hcur & Hw & Hnum & _ & _ & Hentry & _).
  split.
  - rewrite Hnum. injection Hcur as <-. reflexivity.
  - exact (f_equal (option_map currentNumber) Hentry).
Defined.

(** C10, as the specification states it, fails when the winner already
    stood on the target: a player who wins with 50 and then multiplies by
    a dice result of 1 wins again, and the stored winner's number is the
    target itself. *)
Lemma winner_already_on_target_counterexample :
  exists s0 s1 s2 s3 s4 w,
    initializeGame 2 None 0 0 = Ok s0 /\
    applyDiceOperation (rollDiceForGame s0 (3 # 4) (3 # 4)) Plus = Ok s1 /\
    applyFinalMove s1 Times = Ok s2 /\
    applyDiceOperation (rollDiceForGame s2 0 0) Times = Ok s3 /\
    applyFinalMove s3 Times = Ok s4 /\
    winner s4 = Some w /\
    targetNumber s4 = 50 /\
    currentNumber w = targetNumber s4.
Proof.
  do 6 eexists.
  do 7 (split; [reflexivity|]). reflexivity.
Qed.

(** ** Seat identifiers *)

Lemma initializeGame_ids_unique playerCount names rTarget rStart gs :
  initializeGame playerCount names rTarget rStart = Ok gs ->
  NoDup (map id (players gs)).
Proof.
  intros H. injection H as <-. cbn [players].
  rewrite push_seats_ids. cbn [map app].
  apply Injective_map_NoDup; [|apply seq_NoDup].
  intros x y Hxy. lia.
Qed.

Lemma applyFinalMove_keeps_ids (gs gs' : GameState) (op : Operation) :
  applyFinalMove gs op = Ok gs' ->
  map id (players gs') = map id (players gs).
Proof.
  intros H.
  destruct (applyFinalMove_Ok_inv gs gs' op H)
    as (d & cur & n & _ & _ & _ & _ & ->).
  cbn [players]. rewrite map_map. apply map_ext.
  intros p. destruct (id p =? id cur); reflexivity.
Qed.


(** The specification's first scenario: two players, target 50, the first
    player at 25, dice (4, 4) multiplied to 16, then the subtraction:
    the player moves to 9, nobody wins and the turn passes to the second
    seat, whose record is untouched. *)
Lemma scenario_absolute_difference_passes_turn :
  exists s1 s2,
    applyDiceOperation (sample_state (Some (4, 4)) None dice_operation) Times
      = Ok s1 /\
    diceCalculationResult s1 = Some 16 /\
    applyFinalMove s1 Minus = Ok s2 /\
    option_map currentNumber (at_index (players s2) 0) = Some 9 /\
    at_index (players s2) 1 = at_index sample_players 1 /\
    winner s2 = None /\
    currentPlayerIndex s2 = 1 /\
    gamePhase s2 = roll.
Proof.
  eexists. eexists.
  repeat (split; [reflexivity|]). reflexivity.
Qed.

(** ** Failing transitions *)

Module ScreenFacts.

Import NumClashScreen.

Lemma gameState_alert title text c : gameState (alert title text c) = gameState c.
Proof. reflexivity. Qed.

Lemma gameState_stopTimer c : gameState (stopTimer c) = gameState c.
Proof. reflexivity. Qed.

Lemma gameState_announceWinner gs c :
  gameState (announceWinner gs c) = gameState c.
Proof. unfold announceWinner. destruct (winner gs); reflexivity. Qed.

Lemma selectDiceOperation_keeps_on_failure gs op e c :
  gameState c = Some gs ->
  applyDiceOperation gs op = Throw e ->
  gameState (fst (selectDiceOperation op c)) = Some gs.
Proof.
  intros Hgs Hfail. unfold selectDiceOperation. rewrite Hgs.
  destruct (diceResults gs) as [[dice1 dice2]|]; [|exact Hgs].
  destruct (negb (is_phase (gamePhase gs) dice_operation)); [exact Hgs|].
  destruct (is_divide op && (dice2 =? 0))%bool; [exact Hgs|].
  destruct (is_divide op && negb (Z.rem dice1 dice2 =? 0))%bool; [exact Hgs|].
  rewrite Hfail. exact Hgs.
Qed.

Lemma selectFinalOperation_keeps_on_failure gs op e c :
  gameState c = Some gs ->
  applyFinalMove gs op = Throw e ->
  gameState (fst (selectFinalOperation op c)) = Some gs.
Proof.
  intros Hgs Hfail. unfold selectFinalOperation. rewrite Hgs.
  destruct (diceCalculationResult gs) as [d|]; [|exact Hgs].
  destruct (negb (is_phase (gamePhase gs) final_operation)); [exact Hgs|].
  rewrite Hfail.
  destruct (is_divide op); [|exact Hgs].
  destruct (getCurrentPlayer gs) as [cur|]; [|exact Hgs].
  destruct (negb (canDivide (currentNumber cur) d)); exact Hgs.
Qed.

(** Whatever the timer's draw, the state held after [handleTimeUp] is the
    previous one or the complete result of one engine transition. *)
Lemma handleTimeUp_all_or_nothing gs r c :
  gameState c = Some gs ->
  gameState (fst (handleTimeUp r c)) = Some gs \/
  exists op gs',
    (applyDiceOperation gs op = Ok gs' \/ applyFinalMove gs op = Ok gs') /\
    gameState (fst (handleTimeUp r c)) = Some gs'.
Proof.
  intros Hgs. unfold handleTimeUp. rewrite Hgs.
  destruct (is_phase (gamePhase gs) dice_operation
            && match diceResults gs with Some _ => true | None => false end)%bool.
  - destruct (filter (canUseDiceOperation (Some gs)) operations) as [|o l];
      [left; exact Hgs|].
    destruct (pick (o :: l) r) as [op|]; [|left; exact Hgs].
    destruct (applyDiceOperation gs op) as [gs'|e] eqn:Hop; [|left; exact Hgs].
    right. exists op, gs'. split; [left; exact Hop | reflexivity].
  - destruct (is_phase (gamePhase gs) final_operation
              && match diceCalculationResult gs with
                 | Some _ => true | None => false end)%bool;
      [|left; exact Hgs].
    destruct (filter_ops (canUseFinalOperation (Some gs)) operations)
      as [[|o l]|e]; [left; exact Hgs | | left; exact Hgs].
    destruct (pick (o :: l) r) as [op|]; [|left; exact Hgs].
    destruct (applyFinalMove gs op) as [gs'|e] eqn:Hop; [|left; exact Hgs].
    right. exists op, gs'. split; [right; exact Hop|].
    cbn [fst]. rewrite gameState_announceWinner. reflexivity.
Qed.

End ScreenFacts.

(** C9.  Whenever [applyDiceOperation] or [applyFinalMove] fails, no new
    [GameState] is produced and the state the caller holds is the previous
    one: the handler that made the call leaves the component's [gameState]
    as it was, so [currentPlayerIndex] does not advance on a failing final
    move; on the timer's path the held state is either the previous one or
    the complete result of one transition. *)
Theorem failed_transition_keeps_state
        (gs : GameState) (op : Operation) (e : Thrown)
        (c : NumClashScreen.State) :
  NumClashScreen.gameState c = Some gs ->
  (applyDiceOperation gs op = Throw e ->
   (forall gs', applyDiceOperation gs op <> Ok gs') /\
   NumClashScreen.gameState (fst (NumClashScreen.selectDiceOperation op c))
     = Some gs) /\
  (applyFinalMove gs op = Throw e ->
   (forall gs', applyFinalMove gs op <> Ok gs') /\
   NumClashScreen.gameState (fst (NumClashScreen.selectFinalOperation op c))
     = Some gs /\
   option_map currentPlayerIndex
     (NumClashScreen.gameState (fst (NumClashScreen.selectFinalOperation op c)))
     = Some (currentPlayerIndex gs)) /\
  (forall r,
     NumClashScreen.gameState (fst (NumClashScreen.handleTimeUp r c)) = Some gs \/
     exists op' gs',
       (applyDiceOperation gs op' = Ok gs' \/ applyFinalMove gs op' = Ok gs') /\
       NumClashScreen.gameState (fst (NumClashScreen.handleTimeUp r c))
         = Some gs').
Proof.
  intros Hgs. split; [|split].
  - intros Hfail. split; [intros gs'; rewrite Hfail; discriminate|].
    exact (ScreenFacts.selectDiceOperation_keeps_on_failure gs op e c Hgs Hfail).
  - intros Hfail. split; [intros gs'; rewrite Hfail; discriminate|].
    rewrite (ScreenFacts.selectFinalOperation_keeps_on_failure gs op e c Hgs Hfail).
    split; reflexivity.
  - intros r. exact (ScreenFacts.handleTimeUp_all_or_nothing gs r c Hgs).
Qed.

Lemma failed_transition_keeps_state_witness :
  let dice := sample_state (Some (4, 3)) None dice_operation in
  let final := sample_state (Some (3, 3)) (Some 0) final_operation in
  applyDiceOperation dice Divide = Throw (Error msg_inexact_division) /\
  NumClashScreen.gameState
    (fst (NumClashScreen.selectDiceOperation Divide (sample_screen dice)))
    = Some dice /\
  applyFinalMove final Plus = Throw (Error msg_dice_operation_first) /\
  NumClashScreen.gameState
    (fst (NumClashScreen.selectFinalOperation Plus (sample_screen final)))
    = Some final.
Proof.
  intros dice final.
  destruct (failed_transition_keeps_state dice Divide
              (Error msg_inexact_division) (sample_screen dice) eq_refl)
    as (Hdice & _ & _).
  destruct (failed_transition_keeps_state final Plus
              (Error msg_dice_operation_first) (sample_screen final) eq_refl)
    as (_ & Hfinal & _).
  split; [reflexivity|]. split; [apply Hdice; reflexivity|].
  split; [reflexivity|]. apply Hfinal. reflexivity.
Defined.

(** ** Sessions *)

Lemma transition_keeps_target (t : Transition) (gs gs' : GameState) :
  transition t gs = Ok gs' -> targetNumber gs' = targetNumber gs.
Proof.
  destruct t as [r1 r2 | op | op]; cbn; intros H.
  - injection H as <-. reflexivity.
  - destruct (applyDiceOperation_Ok_inv gs gs' op H) as (? & ? & ? & _ & _ & ->).
    reflexivity.
  - destruct (applyFinalMove_Ok_inv gs gs' op H)
      as (? & ? & ? & _ & _ & _ & _ & ->).
    reflexivity.
Qed.

Lemma reachable_keeps_target (start gs : GameState) :
  reachable start gs -> targetNumber gs = targetNumber start.
Proof.
  induction 1 as [|gs gs' t _ IH _ Hstep]; [reflexivity|].
  rewrite (transition_keeps_target t gs gs' Hstep). exact IH.
Qed.

Lemma at_index_in_range {A : Type} (arr : list A) (i : Z) :
  0 <= i < Z.of_nat (List.length arr) -> exists x, at_index arr i = Some x.
Proof.
  intros Hi. unfold at_index.
  destruct (Z.ltb_spec i 0); [lia|].
  destruct (nth_error arr (Z.to_nat i)) as [x|] eqn:Hx; [eauto|].
  apply nth_error_None in Hx. lia.
Qed.

Lemma initializeGame_seats_consistent playerCount names rTarget rStart gs :
  1 <= playerCount -> unit_draw rStart ->
  initializeGame playerCount names rTarget rStart = Ok gs ->
  seats_consistent gs.
Proof.
  intros Hcount Hr Hinit. split.
  - exact (initializeGame_ids_unique _ _ _ _ _ Hinit).
  - injection Hinit as <-.
    change (0 <= Math_floor (rStart * inject_Z playerCount)
            < Z.of_nat (List.length
                          (push_seats names 0 (Z.to_nat playerCount) []))).
    rewrite push_seats_length. cbn [List.length Nat.add].
    destruct (scaled_draw_bounds rStart playerCount ltac:(lia) Hr) as [Hlo Hhi].
    enough (0 <= Math_floor (rStart * inject_Z playerCount) <= playerCount - 1)
      by lia.
    apply floor_between; [exact Hlo|].
    replace (playerCount - 1 + 1) with playerCount by lia. exact Hhi.
Qed.

Lemma transition_keeps_seats_consistent (t : Transition) (gs gs' : GameState) :
  seats_consistent gs -> transition t gs = Ok gs' -> seats_consistent gs'.
Proof.
  intros [Hnd Hidx]. destruct t as [r1 r2 | op | op]; cbn; intros H.
  - injection H as <-. split; assumption.
  - destruct (applyDiceOperation_Ok_inv gs gs' op H) as (? & ? & ? & _ & _ & ->).
    split; assumption.
  - split.
    + rewrite (applyFinalMove_keeps_ids gs gs' op H). exact Hnd.
    + destruct (applyFinalMove_Ok_inv gs gs' op H)
        as (d & cur & n & _ & _ & _ & _ & ->).
      cbn [players currentPlayerIndex]. rewrite length_map.
      destruct (n =? targetNumber gs); [exact Hidx|].
      rewrite Z.rem_mod_nonneg by lia.
      apply Z.mod_pos_bound. lia.
Qed.

Lemma reachable_seats_consistent (start gs : GameState) :
  seats_consistent start -> reachable start gs -> seats_consistent gs.
Proof.
  intros Hstart. induction 1 as [|gs gs' t _ IH _ Hstep]; [exact Hstart|].
  exact (transition_keeps_seats_consistent t gs gs' IH Hstep).
Qed.

Lemma session_seats_consistent playerCount names rTarget rStart start gs :
  1 <= playerCount -> unit_draw rStart ->
  initializeGame playerCount names rTarget rStart = Ok start ->
  reachable start gs ->
  seats_consistent gs.
Proof.
  intros Hcount Hr Hinit Hreach.
  apply (reachable_seats_consistent start gs); [|exact Hreach].
  exact (initializeGame_seats_consistent _ _ _ _ _ Hcount Hr Hinit).
Qed.


(** C8.  The target produced at bootstrap is an integer of the closed
    range [50, 500]; each transition ([rollDiceForGame],
    [applyDiceOperation], [applyFinalMove]) hands it on unchanged, so every
    state a session reaches carries the target of its first state. *)
Theorem targetNumber_in_range_and_constant :
  (forall playerCount names rTarget rStart,
     unit_draw rTarget ->
     exists gs, initializeGame playerCount names rTarget rStart = Ok gs /\
                50 <= targetNumber gs <= 500) /\
  (forall gs r1 r2,
     targetNumber (rollDiceForGame gs r1 r2) = targetNumber gs) /\
  (forall gs op gs',
     applyDiceOperation gs op = Ok gs' -> targetNumber gs' = targetNumber gs) /\
  (forall gs op gs',
     applyFinalMove gs op = Ok gs' -> targetNumber gs' = targetNumber gs) /\
  (forall playerCount names rTarget rStart start gs,
     unit_draw rTarget ->
     initializeGame playerCount names rTarget rStart = Ok start ->
     reachable start gs ->
     targetNumber gs = targetNumber start /\ 50 <= targetNumber gs <= 500).
Proof.
  split; [|split; [|split; [|split]]].
  - intros playerCount names rTarget rStart Hr.
    eexists. split; [reflexivity|]. cbn.
    apply (generateTargetNumber_range rTarget Hr).
  - reflexivity.
  - intros gs op gs' H.
    exact (transition_keeps_target (DiceOperation op) gs gs' H).
  - intros gs op gs' H.
    exact (transition_keeps_target (FinalMove op) gs gs' H).
  - intros playerCount names rTarget rStart start gs Hr Hinit Hreach.
    rewrite (reachable_keeps_target start gs Hreach).
    split; [reflexivity|].
    injection Hinit as <-. cbn.
    apply (generateTargetNumber_range rTarget Hr).
Qed.

Lemma targetNumber_in_range_and_constant_witness :
  (exists gs, initializeGame 2 None (1 # 2) 0 = Ok gs /\
              50 <= targetNumber gs <= 500) /\
  (exists gs',
     applyDiceOperation (sample_state (Some (4, 4)) None dice_operation) Times
       = Ok gs' /\ targetNumber gs' = 50) /\
  (exists gs',
     applyFinalMove (sample_state (Some (4, 4)) (Some 16) final_operation) Minus
       = Ok gs' /\ targetNumber gs' = 50) /\
  (exists start gs,
     initializeGame 2 None (1 # 2) 0 = Ok start /\
     transition (RollDice (1 # 2) 0) start = Ok gs /\
     targetNumber gs = targetNumber start /\ 50 <= targetNumber gs <= 500).
Proof.
  destruct targetNumber_in_range_and_constant
    as (Hinit & _ & Hdice & Hfinal & Hsession).
  split; [apply Hinit, unit_draw_half|].
  split; [|split].
  - eexists. split; [reflexivity|].
    apply (Hdice (sample_state (Some (4, 4)) None dice_operation) Times).
    reflexivity.
  - eexists. split; [reflexivity|].
    apply (Hfinal (sample_state (Some (4, 4)) (Some 16) final_operation) Minus).
    reflexivity.
  - eexists. eexists. split; [reflexivity|]. split; [reflexivity|].
    apply (Hsession 2 None (1 # 2) 0%Q _ _ unit_draw_half eq_refl).
    exact (reachable_step _ _ _ (RollDice (1 # 2) 0) (reachable_start _)
                          (conj unit_draw_half unit_draw_zero) eq_refl).
Defined.

(** * Further properties of the code *)

(** ** Operands and legality *)

(** X1.  Addition, multiplication and the subtraction (an absolute
    difference) do not depend on the order of their operands; the division
    does: it succeeds in both orders only for operands of equal magnitude. *)
Theorem applyOperation_operand_order (a b : Z) :
  applyOperation a b Plus = applyOperation b a Plus /\
  applyOperation a b Minus = applyOperation b a Minus /\
  applyOperation a b Times = applyOperation b a Times /\
  ((exists q, applyOperation a b Divide = Ok q) ->
   (exists q, applyOperation b a Divide = Ok q) ->
   Z.abs a = Z.abs b).
Proof.
  split; [|split; [|split]]; cbn.
  - f_equal. lia.
  - f_equal. lia.
  - f_equal. lia.
  - intros Hab Hba.
    destruct (proj1 (canDivide_true_iff a b)
                (proj1 (applyOperation_divide_succeeds_iff a b) Hab))
      as [Hb Hmod].
    destruct (proj1 (canDivide_true_iff b a)
                (proj1 (applyOperation_divide_succeeds_iff b a) Hba))
      as [Ha Hmod'].
    pose proof (proj1 (Z.mod_divide a b Hb) Hmod) as Hdiv.
    pose proof (proj1 (Z.mod_divide b a Ha) Hmod') as Hdiv'.
    destruct (Z.divide_antisym a b Hdiv' Hdiv); lia.
Qed.

Lemma applyOperation_operand_order_witness :
  applyOperation 6 (-6) Divide = Ok (-1) /\
  applyOperation (-6) 6 Divide = Ok (-1) /\
  Z.abs 6 = Z.abs (-6).
Proof.
  split; [reflexivity|]. split; [reflexivity|].
  apply (applyOperation_operand_order 6 (-6)); eexists; reflexivity.
Defined.

(** X2.  The legality test of the dice phase agrees with the engine: an
    operation is offered exactly when [applyDiceOperation] returns. *)
Theorem canUseDiceOperation_iff_applies (gs : GameState) (op : Operation) :
  NumClashScreen.canUseDiceOperation (Some gs) op = true <->
  exists gs', applyDiceOperation gs op = Ok gs'.
Proof.
  unfold NumClashScreen.canUseDiceOperation, applyDiceOperation.
  destruct (diceResults gs) as [[dice1 dice2]|].
  - destruct op; cbn;
      try (split; [intros _; eexists; reflexivity | reflexivity]).
    destruct (dice2 =? 0); [split; [discriminate | intros [? ?]; discriminate]|].
    destruct (Z.rem dice1 dice2 =? 0); cbn.
    + split; [intros _; eexists; reflexivity | reflexivity].
    + split; [discriminate | intros [? ?]; discriminate].
  - split; [discriminate | intros [? ?]; discriminate].
Qed.

(** ** Operations on rolled dice *)

Lemma die_cases (d : Z) :
  is_die d -> d = 1 \/ d = 2 \/ d = 3 \/ d = 4 \/ d = 5 \/ d = 6.
Proof. unfold is_die. lia. Qed.

Lemma dice_operation_range (dice1 dice2 r : Z) (op : Operation) :
  is_die dice1 -> is_die dice2 ->
  applyOperation dice1 dice2 op = Ok r -> 0 <= r <= 36.
Proof.
  intros H1 H2.
  destruct (die_cases dice1 H1) as [->|[->|[->|[->|[->| ->]]]]];
    destruct (die_cases dice2 H2) as [->|[->|[->|[->|[->| ->]]]]];
    destruct op; cbn; intros H; try discriminate; injection H as <-; lia.
Qed.

(** X5.  On two dice, each in [1, 6]: addition, subtraction and
    multiplication always apply, the division applies exactly when the
    second die divides the first and never meets a zero divisor, every
    result lies in [0, 36], and the result is [0] only for the subtraction
    of a double. *)
Theorem dice_operations_on_real_dice (dice1 dice2 : Z) :
  is_die dice1 -> is_die dice2 ->
  applyOperation dice1 dice2 Plus = Ok (dice1 + dice2) /\
  applyOperation dice1 dice2 Times = Ok (dice1 * dice2) /\
  applyOperation dice1 dice2 Minus = Ok (Z.abs (dice1 - dice2)) /\
  applyOperation dice1 dice2 Divide <> Throw (Error msg_division_by_zero) /\
  ((exists q, applyOperation dice1 dice2 Divide = Ok q) <->
   dice1 mod dice2 = 0) /\
  (forall op r, applyOperation dice1 dice2 op = Ok r ->
                0 <= r <= 36 /\ (r = 0 -> op = Minus /\ dice1 = dice2)).
Proof.
  intros H1 H2.
  assert (Hnz : dice2 <> 0) by (unfold is_die in H2; lia).
  repeat (split; [reflexivity|]).
  split; [|split].
  - unfold applyOperation.
    destruct (Z.eqb_spec dice2 0) as [|_]; [contradiction|].
    destruct (Z.rem dice1 dice2 =? 0); discriminate.
  - rewrite (applyOperation_divide_succeeds_iff dice1 dice2),
      (canDivide_true_iff dice1 dice2).
    tauto.
  - intros op r Hop. split; [exact (dice_operation_range _ _ _ _ H1 H2 Hop)|].
    intros ->. unfold is_die in H1, H2. destruct op; cbn in Hop.
    + injection Hop as Hop. lia.
    + injection Hop as Hop. split; [reflexivity | lia].
    + injection Hop as Hop. nia.
    + destruct (Z.eqb_spec dice2 0) as [|_]; [contradiction|].
      destruct (Z.eqb_spec (Z.rem dice1 dice2) 0) as [Hrem|_];
        [|discriminate].
      cbn in Hop. injection Hop as Hop.
      pose proof (Z.quot_rem' dice1 dice2). nia.
Qed.

Lemma dice_operations_on_real_dice_witness :
  applyOperation 6 4 Plus = Ok 10 /\
  ~ (exists q, applyOperation 6 4 Divide = Ok q) /\
  (forall op r, applyOperation 6 4 op = Ok r -> 0 <= r <= 36).
Proof.
  assert (H6 : is_die 6) by (unfold is_die; lia).
  assert (H4 : is_die 4) by (unfold is_die; lia).
  destruct (dice_operations_on_real_dice 6 4 H6 H4)
    as (Hplus & _ & _ & _ & Hdiv & Hrange).
  split; [exact Hplus|]. split.
  - intros Hq. apply Hdiv in Hq. vm_compute in Hq. discriminate.
  - intros op r Hop. exact (proj1 (Hrange op r Hop)).
Defined.

(** ** Invariants of a session *)

Lemma initializeGame_phase_consistent playerCount names rTarget rStart gs :
  initializeGame playerCount names rTarget rStart = Ok gs ->
  phase_consistent gs.
Proof.
  intros H. injection H as <-. unfold phase_consistent. cbn.
  repeat split; intros; congruence.
Qed.

Lemma transition_keeps_phase_consistent (t : Transition) (gs gs' : GameState) :
  phase_consistent gs -> transition t gs = Ok gs' -> phase_consistent gs'.
Proof.
  intros (Hroll & Hfinal & Hcalc). destruct t as [r1 r2 | op | op]; cbn; intros H.
  - injection H as <-. unfold phase_consistent. cbn.
    repeat split; intros; congruence.
  - destruct (applyDiceOperation_Ok_inv gs gs' op H)
      as (dice1 & dice2 & r & Hdice & _ & ->).
    unfold phase_consistent. cbn. rewrite Hdice.
    repeat split; intros; congruence.
  - destruct (applyFinalMove_Ok_inv gs gs' op H)
      as (d & cur & n & _ & _ & _ & _ & ->).
    unfold phase_consistent. cbn.
    repeat split; intros; congruence.
Qed.

(** X6.  Along a session started by [initializeGame], the dice fields
    follow the phase: [diceResults] is absent exactly in the roll phase,
    the final-operation phase always has a stored dice result, and a
    stored dice result always comes with the dice it was computed from. *)
Theorem session_phase_consistent
        playerCount names rTarget rStart (start gs : GameState) :
  initializeGame playerCount names rTarget rStart = Ok start ->
  reachable start gs ->
  (diceResults gs = None <-> gamePhase gs = roll) /\
  (gamePhase gs = final_operation -> diceCalculationResult gs <> None) /\
  (diceCalculationResult gs <> None -> diceResults gs <> None).
Proof.
  intros Hinit Hreach. change (phase_consistent gs).
  induction Hreach as [|gs gs' t _ IH _ Hstep].
  - exact (initializeGame_phase_consistent _ _ _ _ _ Hinit).
  - exact (transition_keeps_phase_consistent t gs gs' IH Hstep).
Qed.

Lemma session_phase_consistent_witness :
  exists start gs,
    initializeGame 2 None (1 # 2) 0 = Ok start /\
    transition (RollDice (1 # 2) 0) start = Ok gs /\
    gamePhase gs = dice_operation /\
    (diceResults gs = None <-> gamePhase gs = roll).
Proof.
  eexists. eexists. split; [reflexivity|]. split; [reflexivity|].
  split; [reflexivity|].
  apply (session_phase_consistent 2 None (1 # 2) 0%Q _ _ eq_refl).
  exact (reachable_step _ _ _ (RollDice (1 # 2) 0) (reachable_start _)
                        (conj unit_draw_half unit_draw_zero) eq_refl).
Defined.

Lemma at_index_In {A : Type} (arr : list A) (i : Z) (x : A) :
  at_index arr i = Some x -> In x arr.
Proof.
  unfold at_index. destruct (i <? 0); [discriminate|]. apply nth_error_In.
Qed.

Lemma applyOperation_nonnegative (n d r : Z) (op : Operation) :
  0 <= n -> 0 <= d -> applyOperation n d op = Ok r -> 0 <= r.
Proof.
  intros Hn Hd. destruct op; cbn; intros H.
  - injection H as <-. lia.
  - injection H as <-. lia.
  - injection H as <-. nia.
  - destruct (Z.eqb_spec d 0) as [|Hnz]; [discriminate|].
    destruct (Z.rem n d =? 0); [|discriminate].
    cbn in H. injection H as <-. apply Z.quot_pos; lia.
Qed.

Lemma initializeGame_numbers_in_range playerCount names rTarget rStart gs :
  initializeGame playerCount names rTarget rStart = Ok gs ->
  numbers_in_range gs.
Proof.
  intros H.
  destruct (initializeGame_returns playerCount names rTarget rStart)
    as (gs0 & Hok & _ & Hnum & _ & Hdice & Hcalc & _).
  assert (gs0 = gs) by congruence. subst gs0.
  split; [|split].
  - eapply Forall_impl; [|exact Hnum]. cbn. intros p ->.
    unfold INITIAL_PLAYER_NUMBER. lia.
  - intros dice1 dice2 Hd. congruence.
  - intros d Hd. congruence.
Qed.

Lemma transition_keeps_numbers_in_range (t : Transition) (gs gs' : GameState) :
  numbers_in_range gs -> legal_draws t -> transition t gs = Ok gs' ->
  numbers_in_range gs'.
Proof.
  intros (Hplayers & Hdice & Hcalc). destruct t as [r1 r2 | op | op]; cbn;
    intros Hdraws H.
  - injection H as <-. split; [|split]; cbn; [assumption| |assumption].
    intros dice1 dice2 Heq. injection Heq as <- <-.
    destruct Hdraws as [Hr1 Hr2].
    split; apply rollDice_range; assumption.
  - destruct (applyDiceOperation_Ok_inv gs gs' op H)
      as (dice1 & dice2 & r & Hd & Hop & ->).
    split; [|split]; cbn; [assumption|assumption|].
    intros d Heq. injection Heq as <-.
    destruct (Hdice dice1 dice2 Hd) as [H1 H2].
    exact (dice_operation_range dice1 dice2 r op H1 H2 Hop).
  - destruct (applyFinalMove_Ok_inv gs gs' op H)
      as (d & cur & n & Hd & _ & Hcur & Hop & ->).
    split; [|split]; cbn; [|discriminate|discriminate].
    assert (Hn : 0 <= n).
    { apply (applyOperation_nonnegative (currentNumber cur) d n op);
        [|apply (Hcalc d Hd)|exact Hop].
      exact (proj1 (Forall_forall _ _) Hplayers cur (at_index_In _ _ _ Hcur)). }
    apply Forall_map. eapply Forall_impl; [|exact Hplayers].
    cbn. intros p Hp. destruct (id p =? id cur); cbn; assumption.
Qed.

(** X7.  Along a session started by [initializeGame] and played with
    legal draws, no number is ever negative: every player's
    [currentNumber] is at least [0], both dice are in [1, 6] and the stored
    dice result is in [0, 36]. *)
Theorem session_numbers_in_range
        playerCount names rTarget rStart (start gs : GameState) :
  initializeGame playerCount names rTarget rStart = Ok start ->
  reachable start gs ->
  Forall (fun p => 0 <= currentNumber p) (players gs) /\
  (forall dice1 dice2, diceResults gs = Some (dice1, dice2) ->
                       1 <= dice1 <= 6 /\ 1 <= dice2 <= 6) /\
  (forall d, diceCalculationResult gs = Some d -> 0 <= d <= 36).
Proof.
  intros Hinit Hreach. change (numbers_in_range gs).
  induction Hreach as [|gs gs' t _ IH Hdraws Hstep].
  - exact (initializeGame_numbers_in_range _ _ _ _ _ Hinit).
  - exact (transition_keeps_numbers_in_range t gs gs' IH Hdraws Hstep).
Qed.

Lemma session_numbers_in_range_witness :
  exists start gs,
    initializeGame 2 None (1 # 2) 0 = Ok start /\
    transition (RollDice (1 # 2) 0) start = Ok gs /\
    Forall (fun p => 0 <= currentNumber p) (players gs) /\
    diceResults gs = Some (4, 1).
Proof.
  eexists. eexists. split; [reflexivity|]. split; [reflexivity|].
  split; [|reflexivity].
  apply (session_numbers_in_range 2 None (1 # 2) 0%Q _ _ eq_refl).
  exact (reachable_step _ _ _ (RollDice (1 # 2) 0) (reachable_start _)
                        (conj unit_draw_half unit_draw_zero) eq_refl).
Defined.

Lemma transition_keeps_roster (t : Transition) (gs gs' : GameState) :
  transition t gs = Ok gs' ->
  map id (players gs') = map id (players gs) /\
  map name (players gs') = map name (players gs) /\
  map color (players gs') = map color (players gs).
Proof.
  destruct t as [r1 r2 | op | op]; cbn; intros H.
  - injection H as <-. auto.
  - destruct (applyDiceOperation_Ok_inv gs gs' op H) as (? & ? & ? & _ & _ & ->).
    auto.
  - destruct (applyFinalMove_Ok_inv gs gs' op H)
      as (d & cur & n & _ & _ & _ & _ & ->).
    cbn [players]. rewrite !map_map.
    repeat split; apply map_ext; intros p; destruct (id p =? id cur);
      reflexivity.
Qed.

(** X8.  The roster of a session is fixed: whatever transitions are
    made, the players keep their number, order, [id], [name] and [color];
    a transition can only change a [currentNumber]. *)
Theorem session_roster_fixed (start gs : GameState) :
  reachable start gs ->
  List.length (players gs) = List.length (players start) /\
  map id (players gs) = map id (players start) /\
  map name (players gs) = map name (players start) /\
  map color (players gs) = map color (players start).
Proof.
  intros Hreach.
  enough (H : map id (players gs) = map id (players start) /\
              map name (players gs) = map name (players start) /\
              map color (players gs) = map color (players start)).
  { split; [|exact H]. destruct H as [Hid _].
    rewrite <- (length_map id (players gs)), Hid. apply length_map. }
  induction Hreach as [|gs gs' t _ IH _ Hstep]; [auto|].
  destruct (transition_keeps_roster t gs gs' Hstep) as (Hid & Hname & Hcolor).
  destruct IH as (IHid & IHname & IHcolor).
  repeat split; congruence.
Qed.

Lemma session_roster_fixed_witness :
  exists gs,
    applyFinalMove (sample_state (Some (4, 4)) (Some 16) final_operation) Minus
      = Ok gs /\
    map name (players gs) = ["Ada"; "Bora"]%string /\
    map currentNumber (players gs) = [9; 5].
Proof.
  eexists. split; [reflexivity|]. split; [|reflexivity].
  match goal with
  | |- map name (players ?g) = _ =>
      exact (proj1 (proj2 (proj2
               (session_roster_fixed
                  (sample_state (Some (4, 4)) (Some 16) final_operation) g
                  (reachable_step
                     (sample_state (Some (4, 4)) (Some 16) final_operation)
                     (sample_state (Some (4, 4)) (Some 16) final_operation)
                     g (FinalMove Minus) (reachable_start _) I eq_refl)))))
  end.
Defined.

(** ** Seats at bootstrap *)

Lemma push_seats_eq names (remaining : nat) :
  forall i acc,
    push_seats names i remaining acc
    = acc ++ map (fun k => seat names (i + Z.of_nat k)) (seq 0 remaining).
Proof.
  induction remaining as [|k IH]; intros i acc.
  - cbn. rewrite app_nil_r. reflexivity.
  - cbn [push_seats]. rewrite IH, <- app_assoc. f_equal.
    cbn [seq map app]. f_equal; [f_equal; lia|].
    rewrite <- seq_shift, map_map. apply map_ext. intros n. f_equal. lia.
Qed.

Lemma initializeGame_seat_at playerCount names rTarget rStart gs (i : Z) :
  initializeGame playerCount names rTarget rStart = Ok gs ->
  0 <= i < playerCount ->
  at_index (players gs) i = Some (seat names i).
Proof.
  intros H Hi. injection H as <-. cbn [players].
  rewrite push_seats_eq. cbn [app]. unfold at_index.
  destruct (Z.ltb_spec i 0); [lia|].
  rewrite nth_error_map.
  rewrite (nth_error_nth' _ 0%nat) by (rewrite length_seq; lia).
  rewrite seq_nth by lia. cbn. f_equal. f_equal. lia.
Qed.

(** The no-break space, the ideographic space and the byte order mark
    are white space for [trim], letters beyond ASCII are not, and a name
    made of white space only gets the placeholder. *)
Lemma trim_unicode_white_space :
  trim " " = ""%string /\
  trim "　 ﻿   " = ""%string /\
  trim "  İpek Şahin　  " = "İpek Şahin"%string /\
  trim "À" = "À"%string /\
  trim " à " = "à"%string /\
  seat_name (Some [" "]%string) 0 = "Oyuncu 1"%string.
Proof. repeat split; reflexivity. Qed.

Lemma seat_name_nonempty names (i : Z) : seat_name names i <> ""%string.
Proof.
  unfold seat_name. destruct names as [l|]; [|discriminate].
  destruct (at_index l i) as [s|]; [|discriminate].
  destruct (String.eqb_spec (trim s) ""); [discriminate | assumption].
Qed.

(** X9.  The seats [initializeGame] builds: the player at index [i] has
    [id] [i + 1], the initial number [5] and the [i]-th palette colour,
    which exists exactly for the first four seats; the name is never
    empty: it is the trimmed custom name when one is given and not blank,
    and the placeholder with the seat number otherwise. *)
Theorem initializeGame_seats
        playerCount names rTarget rStart (gs : GameState) (i : Z) :
  initializeGame playerCount names rTarget rStart = Ok gs ->
  0 <= i < playerCount ->
  exists p,
    at_index (players gs) i = Some p /\
    id p = i + 1 /\
    currentNumber p = 5 /\
    color p = at_index PLAYER_COLORS i /\
    (color p <> None <-> i < 4) /\
    name p <> ""%string /\
    (forall l s, names = Some l -> at_index l i = Some s ->
                 trim s <> ""%string -> name p = trim s) /\
    ((names = None \/
      (exists l, names = Some l /\
                 (at_index l i = None \/
                  exists s, at_index l i = Some s /\ trim s = ""%string))) ->
     name p = ("Oyuncu " ++ string_of_number (i + 1))%string).
Proof.
  intros Hinit Hi. exists (seat names i).
  split; [exact (initializeGame_seat_at _ _ _ _ _ i Hinit Hi)|].
  cbn. repeat (split; [reflexivity|]).
  split; [|split; [|split]].
  - unfold at_index. destruct (Z.ltb_spec i 0); [lia|].
    destruct (nth_error PLAYER_COLORS (Z.to_nat i)) eqn:Hc.
    + assert ((Z.to_nat i < List.length PLAYER_COLORS)%nat)
        by (apply nth_error_Some; congruence).
      cbn in *. split; [lia | discriminate].
    + apply nth_error_None in Hc. cbn in Hc. split; [congruence | lia].
  - apply seat_name_nonempty.
  - intros l s -> Hs Hne. unfold seat_name. rewrite Hs.
    destruct (String.eqb_spec (trim s) ""); [contradiction | reflexivity].
  - unfold seat_name. intros [->|(l & -> & [Hnone|(s & Hs & Hblank)])].
    + reflexivity.
    + rewrite Hnone. reflexivity.
    + rewrite Hs, Hblank. reflexivity.
Qed.

Lemma initializeGame_seats_witness :
  exists gs p,
    initializeGame 3 (Some ["  Ece "; "   "]%string) (1 # 2) 0 = Ok gs /\
    at_index (players gs) 0 = Some p /\
    name p = "Ece"%string /\ id p = 1 /\ color p <> None.
Proof.
  eexists.
  destruct (initializeGame_seats 3 (Some ["  Ece "; "   "]%string) (1 # 2) 0%Q
              _ 0 eq_refl ltac:(lia))
    as (p & Hp & Hid & _ & _ & Hcolor & _ & Hname & _).
  exists p. split; [reflexivity|]. split; [exact Hp|].
  split; [|split; [exact Hid | apply Hcolor; lia]].
  apply (Hname _ "  Ece "%string eq_refl eq_refl). discriminate.
Defined.

(** X10.  Along a session started by [initializeGame] for at least one
    player, the players' [id]s stay pairwise distinct and
    [currentPlayerIndex] stays a valid index into [players]. *)
Theorem session_ids_unique_index_valid
        playerCount names rTarget rStart (start gs : GameState) :
  1 <= playerCount -> unit_draw rStart ->
  initializeGame playerCount names rTarget rStart = Ok start ->
  reachable start gs ->
  NoDup (map id (players gs)) /\
  0 <= currentPlayerIndex gs < Z.of_nat (List.length (players gs)) /\
  exists cur, getCurrentPlayer gs = Some cur.
Proof.
  intros Hcount Hr Hinit Hreach.
  destruct (reachable_seats_consistent start gs
              (initializeGame_seats_consistent _ _ _ _ _ Hcount Hr Hinit)
              Hreach) as [Hnd Hidx].
  split; [exact Hnd|]. split; [exact Hidx|].
  exact (at_index_in_range _ _ Hidx).
Qed.

Lemma session_ids_unique_index_valid_witness :
  exists start gs,
    initializeGame 2 None (1 # 2) (1 # 2) = Ok start /\
    transition (RollDice (1 # 2) 0) start = Ok gs /\
    0 <= currentPlayerIndex gs < Z.of_nat (List.length (players gs)) /\
    currentPlayerIndex gs = 1.
Proof.
  eexists. eexists. split; [reflexivity|]. split; [reflexivity|].
  split; [|reflexivity].
  refine (proj1 (proj2 (session_ids_unique_index_valid
                          2 None (1 # 2) (1 # 2) _ _
                          ltac:(lia) unit_draw_half eq_refl _))).
  exact (reachable_step _ _ _ (RollDice (1 # 2) 0) (reachable_start _)
                        (conj unit_draw_half unit_draw_zero) eq_refl).
Defined.

(** ** Turns *)

Lemma passes_length (start gs : GameState) (k : nat) :
  passes start k gs ->
  List.length (players gs) = List.length (players start).
Proof.
  induction 1 as [|k gs r1 r2 _ IH|k gs gs' op _ IH Hop|k gs gs' op _ IH Hop _];
    [reflexivity | exact IH | |].
  - destruct (applyDiceOperation_Ok_inv gs gs' op Hop) as (? & ? & ? & _ & _ & ->).
    exact IH.
  - destruct (applyFinalMove_Ok_inv gs gs' op Hop)
      as (? & ? & ? & _ & _ & _ & _ & ->).
    cbn [players]. rewrite length_map. exact IH.
Qed.

(** X11.  Turns rotate: after [k] completed final moves that did not
    win, whatever rolls and dice operations came between, the active
    index is the starting index advanced by [k] modulo the number of
    players; after as many such moves as there are players it is the
    starting player's turn again. *)
Theorem turn_rotation (start gs : GameState) (k : nat) :
  0 <= currentPlayerIndex start < Z.of_nat (List.length (players start)) ->
  passes start k gs ->
  currentPlayerIndex gs
  = (currentPlayerIndex start + Z.of_nat k)
      mod Z.of_nat (List.length (players start)) /\
  (k = List.length (players start) ->
   currentPlayerIndex gs = currentPlayerIndex start).
Proof.
  intros Hidx Hpasses.
  assert (Hmain : currentPlayerIndex gs
                  = (currentPlayerIndex start + Z.of_nat k)
                      mod Z.of_nat (List.length (players start))).
  { induction Hpasses
      as [|k gs r1 r2 _ IH|k gs gs' op _ IH Hop|k gs gs' op Hp IH Hop Hw].
    - rewrite Z.add_0_r, Z.mod_small; [reflexivity | exact Hidx].
    - exact IH.
    - destruct (applyDiceOperation_Ok_inv gs gs' op Hop)
        as (? & ? & ? & _ & _ & ->).
      exact IH.
    - pose proof (passes_length start gs k Hp) as Hlen.
      destruct (applyFinalMove_Ok_inv gs gs' op Hop)
        as (d & cur & n & _ & _ & Hcur & _ & ->).
      cbn in Hw |- *.
      destruct (n =? targetNumber gs); [discriminate|].
      pose proof (at_index_Some_range _ _ _ Hcur) as Hrange.
      rewrite Z.rem_mod_nonneg by lia.
      rewrite Hlen, IH, Zplus_mod_idemp_l. f_equal. lia. }
  split; [exact Hmain|].
  intros ->. rewrite Hmain.
  rewrite <- (Z.mul_1_l (Z.of_nat (List.length (players start)))) at 1.
  rewrite Z.mod_add by lia. apply Z.mod_small, Hidx.
Qed.

Lemma turn_rotation_witness :
  exists s1 s2 s3,
    applyFinalMove (sample_state (Some (4, 4)) (Some 16) final_operation) Minus
      = Ok s1 /\
    applyDiceOperation (rollDiceForGame s1 0 0) Plus = Ok s2 /\
    applyFinalMove s2 Plus = Ok s3 /\
    currentPlayerIndex s1 = 1 /\ currentPlayerIndex s3 = 0.
Proof.
  eexists. eexists. eexists.
  split; [reflexivity|]. split; [reflexivity|]. split; [reflexivity|].
  split; [reflexivity|].
  refine (proj2 (turn_rotation
                   (sample_state (Some (4, 4)) (Some 16) final_operation)
                   _ 2 ltac:(cbn; lia) _) eq_refl).
  pose (start := sample_state (Some (4, 4)) (Some 16) final_operation).
  pose proof (passes_final start 0 start _ Minus (passes_start start)
                           eq_refl eq_refl) as H1.
  pose proof (passes_dice start 1 _ _ Plus (passes_roll start 1 _ 0 0 H1)
                          eq_refl) as H2.
  exact (passes_final start 1 _ _ Plus H2 eq_refl eq_refl).
Defined.




(** ** The handlers of the operations modal *)

Module HandlerFacts.

Import NumClashScreen.

Lemma is_phase_true p q : is_phase p q = true <-> p = q.
Proof. destruct p, q; cbn; split; congruence. Qed.

Lemma pick_in_range (validOperations : list Operation) (r : Q) :
  validOperations <> [] -> unit_draw r ->
  exists op, pick validOperations r = Some op /\ In op validOperations.
Proof.
  intros Hne Hr. unfold pick.
  assert (Hlen : 0 < Z.of_nat (List.length validOperations))
    by (destruct validOperations; [contradiction | cbn; lia]).
  destruct (scaled_draw_bounds r _ Hlen Hr) as [Hlo Hhi].
  pose proof (floor_between
                (r * inject_Z (Z.of_nat (List.length validOperations)))
                0 (Z.of_nat (List.length validOperations) - 1) Hlo) as Hfloor.
  replace (Z.of_nat (List.length validOperations) - 1 + 1)
    with (Z.of_nat (List.length validOperations)) in Hfloor by lia.
  specialize (Hfloor Hhi).
  destruct (at_index_in_range validOperations
              (Math_floor (r * inject_Z (Z.of_nat (List.length validOperations))))
              ltac:(lia)) as [op Hop].
  exists op. split; [exact Hop | exact (at_index_In _ _ _ Hop)].
Qed.

Lemma filter_ops_final (gs : GameState) (d : Z) (cur : Player) :
  diceCalculationResult gs = Some d ->
  getCurrentPlayer gs = Some cur ->
  filter_ops (canUseFinalOperation (Some gs)) operations
  = Ok (Plus :: Minus :: Times ::
        (if canDivide (currentNumber cur) d then [Divide] else [])).
Proof.
  intros Hd Hcur. unfold operations, canUseFinalOperation. cbn.
  rewrite Hd, Hcur. cbn.
  destruct (canDivide (currentNumber cur) d); reflexivity.
Qed.

Lemma final_move_applies (gs : GameState) (d : Z) (cur : Player)
      (op : Operation) :
  diceCalculationResult gs = Some d -> d <> 0 ->
  getCurrentPlayer gs = Some cur ->
  In op (Plus :: Minus :: Times ::
         (if canDivide (currentNumber cur) d then [Divide] else [])) ->
  exists gs', applyFinalMove gs op = Ok gs'.
Proof.
  intros Hd Hnz Hcur Hin.
  assert (Hop : exists n, applyOperation (currentNumber cur) d op = Ok n).
  { destruct op; cbn; eauto.
    apply (applyOperation_divide_succeeds_iff (currentNumber cur) d).
    destruct (canDivide (currentNumber cur) d); [reflexivity|].
    cbn in Hin. intuition discriminate. }
  destruct Hop as [n Hn].
  exact (applyFinalMove_Ok_intro gs op d cur n Hd Hnz Hcur Hn).
Qed.

End HandlerFacts.

(** X13.  When the timer runs out in the dice-operation phase, a move is
    always made: for a legal draw, [handleTimeUp] picks an operation the
    legality test allows, the engine accepts it, and the component holds
    the resulting state, in the final-operation phase, with the timer
    stopped and no exception raised. *)
Theorem handleTimeUp_forces_dice_operation
        (c : NumClashScreen.State) (gs : GameState) (r : Q) :
  NumClashScreen.gameState c = Some gs ->
  gamePhase gs = dice_operation ->
  diceResults gs <> None ->
  unit_draw r ->
  exists op gs',
    NumClashScreen.canUseDiceOperation (Some gs) op = true /\
    applyDiceOperation gs op = Ok gs' /\
    gamePhase gs' = final_operation /\
    NumClashScreen.handleTimeUp r c
    = (NumClashScreen.setGameState gs' (NumClashScreen.stopTimer c), None).
Proof.
  intros Hgs Hphase Hdice Hr.
  unfold NumClashScreen.handleTimeUp. rewrite Hgs, Hphase. cbn [NumClashScreen.is_phase].
  destruct (diceResults gs) as [[dice1 dice2]|] eqn:Hd; [|contradiction].
  cbn [andb].
  set (valid := filter (NumClashScreen.canUseDiceOperation (Some gs))
                       NumClashScreen.operations).
  assert (Hne : valid <> []).
  { unfold valid, NumClashScreen.operations,
      NumClashScreen.canUseDiceOperation. rewrite Hd. cbn. discriminate. }
  destruct (HandlerFacts.pick_in_range valid r Hne Hr) as (op & Hpick & Hin).
  assert (Hcan : NumClashScreen.canUseDiceOperation (Some gs) op = true)
    by (apply (proj1 (filter_In _ _ _) Hin)).
  assert (Hok : exists gs', applyDiceOperation gs op = Ok gs').
  { unfold NumClashScreen.canUseDiceOperation in Hcan.
    unfold applyDiceOperation. rewrite Hd in *.
    destruct op; cbn; eauto.
    cbn in Hcan. destruct (dice2 =? 0); [discriminate|].
    rewrite Hcan. cbn. eauto. }
  destruct Hok as [gs' Hok].
  exists op, gs'. split; [exact Hcan|]. split; [exact Hok|].
  split.
  - destruct (applyDiceOperation_Ok_inv gs gs' op Hok)
      as (? & ? & ? & _ & _ & ->).
    reflexivity.
  - destruct valid as [|o l]; [contradiction|].
    rewrite Hpick, Hok. reflexivity.
Qed.

Lemma handleTimeUp_forces_dice_operation_witness :
  exists op gs',
    applyDiceOperation (sample_state (Some (4, 3)) None dice_operation) op
      = Ok gs' /\
    NumClashScreen.gameState
      (fst (NumClashScreen.handleTimeUp
              (1 # 2) (sample_screen
                         (sample_state (Some (4, 3)) None dice_operation))))
    = Some gs'.
Proof.
  destruct (handleTimeUp_forces_dice_operation
              (sample_screen (sample_state (Some (4, 3)) None dice_operation))
              (sample_state (Some (4, 3)) None dice_operation) (1 # 2)
              eq_refl eq_refl ltac:(discriminate) unit_draw_half)
    as (op & gs' & _ & Hok & _ & Hrun).
  exists op, gs'. split; [exact Hok|]. rewrite Hrun. reflexivity.
Defined.

(** X14.  When the timer runs out in the final-operation phase with a
    stored dice result other than [0] and a valid active index, a final
    move is always made: for a legal draw the engine accepts the picked
    operation, the component holds the resulting state, in the roll phase,
    the operations modal is closed and no exception is raised. *)
Theorem handleTimeUp_forces_final_move
        (c : NumClashScreen.State) (gs : GameState) (d : Z) (cur : Player)
        (r : Q) :
  NumClashScreen.gameState c = Some gs ->
  gamePhase gs = final_operation ->
  diceCalculationResult gs = Some d -> d <> 0 ->
  getCurrentPlayer gs = Some cur ->
  unit_draw r ->
  exists op gs',
    applyFinalMove gs op = Ok gs' /\
    gamePhase gs' = roll /\
    NumClashScreen.gameState (fst (NumClashScreen.handleTimeUp r c))
    = Some gs' /\
    NumClashScreen.showOperationsModal (fst (NumClashScreen.handleTimeUp r c))
    = false /\
    NumClashScreen.isTimerActive (fst (NumClashScreen.handleTimeUp r c))
    = false /\
    snd (NumClashScreen.handleTimeUp r c) = None.
Proof.
  intros Hgs Hphase Hd Hnz Hcur Hr.
  unfold NumClashScreen.handleTimeUp. rewrite Hgs, Hphase, Hd.
  cbn [NumClashScreen.is_phase andb].
  rewrite (HandlerFacts.filter_ops_final gs d cur Hd Hcur).
  set (valid := Plus :: Minus :: Times ::
                (if canDivide (currentNumber cur) d then [Divide] else [])).
  destruct (HandlerFacts.pick_in_range valid r ltac:(discriminate) Hr)
    as (op & Hpick & Hin).
  destruct (HandlerFacts.final_move_applies gs d cur op Hd Hnz Hcur Hin)
    as [gs' Hok].
  exists op, gs'. split; [exact Hok|].
  split.
  { destruct (applyFinalMove_Ok_inv gs gs' op Hok)
      as (? & ? & ? & _ & _ & _ & _ & ->).
    reflexivity. }
  rewrite Hpick, Hok. cbn [fst snd].
  unfold NumClashScreen.announceWinner.
  destruct (winner gs'); repeat split.
Qed.

Lemma handleTimeUp_forces_final_move_witness :
  exists op gs',
    applyFinalMove (sample_state (Some (4, 4)) (Some 16) final_operation) op
      = Ok gs' /\
    NumClashScreen.gameState
      (fst (NumClashScreen.handleTimeUp
              (1 # 2)
              (sample_screen
                 (sample_state (Some (4, 4)) (Some 16) final_operation))))
    = Some gs'.
Proof.
  destruct (handleTimeUp_forces_final_move
              (sample_screen
                 (sample_state (Some (4, 4)) (Some 16) final_operation))
              (sample_state (Some (4, 4)) (Some 16) final_operation) 16
              {| id := 1; name := "Ada"; currentNumber := 25;
                 color := Some "#FF6B6B"%string |}
              (1 # 2) eq_refl eq_refl eq_refl ltac:(lia) eq_refl unit_draw_half)
    as (op & gs' & Hok & _ & Hrun & _).
  exists op, gs'. split; assumption.
Defined.

(** X15.  The legality test of the final phase against the engine: every
    operation the engine accepts is offered, and, when the stored dice
    result is not [0], every operation offered is accepted.  (With a stored
    [0] the test still offers [+], [-] and [*].) *)
Theorem canUseFinalOperation_against_engine (gs : GameState) (op : Operation) :
  (forall gs', applyFinalMove gs op = Ok gs' ->
               NumClashScreen.canUseFinalOperation (Some gs) op = Ok true) /\
  (forall d, diceCalculationResult gs = Some d -> d <> 0 ->
             NumClashScreen.canUseFinalOperation (Some gs) op = Ok true ->
             getCurrentPlayer gs <> None ->
             exists gs', applyFinalMove gs op = Ok gs') /\
  (diceCalculationResult gs = Some 0 -> op <> Divide ->
   NumClashScreen.canUseFinalOperation (Some gs) op = Ok true /\
   applyFinalMove gs op = Throw (Error msg_dice_operation_first)).
Proof.
  split; [|split].
  - intros gs' Hok.
    destruct (applyFinalMove_Ok_inv gs gs' op Hok)
      as (d & cur & n & Hd & _ & Hcur & Hop & _).
    unfold NumClashScreen.canUseFinalOperation, getCurrentPlayer.
    rewrite Hd, Hcur. destruct op; cbn; try reflexivity.
    f_equal. apply (applyOperation_divide_succeeds_iff (currentNumber cur) d).
    eauto.
  - intros d Hd Hnz Hcan Hplayer.
    destruct (getCurrentPlayer gs) as [cur|] eqn:Hcur; [|contradiction].
    apply (HandlerFacts.final_move_applies gs d cur op Hd Hnz Hcur).
    unfold NumClashScreen.canUseFinalOperation in Hcan.
    rewrite Hd, Hcur in Hcan.
    destruct op; cbn in Hcan |- *; auto.
    injection Hcan as ->. cbn. auto.
  - intros Hd Hop. unfold NumClashScreen.canUseFinalOperation, applyFinalMove.
    rewrite Hd. split; [|reflexivity].
    destruct op; try reflexivity. contradiction.
Qed.

Lemma canUseFinalOperation_against_engine_witness :
  NumClashScreen.canUseFinalOperation
    (Some (sample_state (Some (5, 5)) (Some 25) final_operation)) Divide
  = Ok true /\
  (exists gs',
     applyFinalMove (sample_state (Some (5, 5)) (Some 25) final_operation)
                    Divide = Ok gs') /\
  applyFinalMove (sample_state (Some (3, 3)) (Some 0) final_operation) Plus
  = Throw (Error msg_dice_operation_first).
Proof.
  destruct (canUseFinalOperation_against_engine
              (sample_state (Some (5, 5)) (Some 25) final_operation) Divide)
    as (Hoffered & Haccepted & _).
  destruct (canUseFinalOperation_against_engine
              (sample_state (Some (3, 3)) (Some 0) final_operation) Plus)
    as (_ & _ & Hzero).
  split; [exact (Hoffered _ eq_refl)|]. split.
  - apply (Haccepted 25 eq_refl); [lia | reflexivity | discriminate].
  - apply Hzero; [reflexivity | discriminate].
Defined.

(** X16.  A stored dice result of [0] blocks the turn: in the
    final-operation phase with [diceCalculationResult = 0], whatever the
    operation chosen and whatever the timer's draw, the three handlers
    leave the component's [gameState] as it is. *)
Theorem zero_result_blocks_the_turn
        (c : NumClashScreen.State) (gs : GameState) (op : Operation) (r : Q) :
  NumClashScreen.gameState c = Some gs ->
  gamePhase gs = final_operation ->
  diceCalculationResult gs = Some 0 ->
  NumClashScreen.gameState (fst (NumClashScreen.selectDiceOperation op c))
  = Some gs /\
  NumClashScreen.gameState (fst (NumClashScreen.selectFinalOperation op c))
  = Some gs /\
  NumClashScreen.gameState (fst (NumClashScreen.handleTimeUp r c))
  = Some gs.
Proof.
  intros Hgs Hphase Hd.
  assert (Hfail : forall o,
             applyFinalMove gs o = Throw (Error msg_dice_operation_first)).
  { intros o. unfold applyFinalMove. rewrite Hd. reflexivity. }
  split; [|split].
  - unfold NumClashScreen.selectDiceOperation. rewrite Hgs, Hphase.
    destruct (diceResults gs) as [[dice1 dice2]|]; exact Hgs.
  - exact (ScreenFacts.selectFinalOperation_keeps_on_failure
             gs op _ c Hgs (Hfail op)).
  - unfold NumClashScreen.handleTimeUp. rewrite Hgs, Hphase, Hd.
    cbn [NumClashScreen.is_phase andb].
    destruct (NumClashScreen.filter_ops
                (NumClashScreen.canUseFinalOperation (Some gs))
                NumClashScreen.operations) as [[|o l]|e];
      [exact Hgs | | exact Hgs].
    destruct (NumClashScreen.pick (o :: l) r) as [picked|]; [|exact Hgs].
    rewrite (Hfail picked). exact Hgs.
Qed.

Lemma zero_result_blocks_the_turn_witness :
  let stuck := sample_state (Some (3, 3)) (Some 0) final_operation in
  NumClashScreen.gameState
    (fst (NumClashScreen.selectFinalOperation Times (sample_screen stuck)))
  = Some stuck /\
  NumClashScreen.gameState
    (fst (NumClashScreen.handleTimeUp (1 # 2) (sample_screen stuck)))
  = Some stuck.
Proof.
  intros stuck.
  destruct (zero_result_blocks_the_turn (sample_screen stuck) stuck Times
              (1 # 2) eq_refl eq_refl eq_refl) as (_ & Hselect & Htimer).
  split; assumption.
Defined.

(** X17.  Choosing a dice operation.  Outside the dice-operation phase
    the handler does nothing.  In it, a choice the legality test allows is
    always accepted by the engine: the component takes the new state and
    stops the timer, without any alert; a choice it rejects can only be
    the division, and the handler then shows one alert with a fixed text
    and keeps the state.  The engine's own error is never shown. *)
Theorem selectDiceOperation_outcome
        (c : NumClashScreen.State) (gs : GameState) (op : Operation) :
  NumClashScreen.gameState c = Some gs ->
  (gamePhase gs <> dice_operation \/ diceResults gs = None ->
   NumClashScreen.selectDiceOperation op c = (c, None)) /\
  (gamePhase gs = dice_operation -> diceResults gs <> None ->
   NumClashScreen.canUseDiceOperation (Some gs) op = true ->
   exists gs',
     applyDiceOperation gs op = Ok gs' /\
     NumClashScreen.selectDiceOperation op c
     = (NumClashScreen.stopTimer (NumClashScreen.setGameState gs' c), None)) /\
  (gamePhase gs = dice_operation -> diceResults gs <> None ->
   NumClashScreen.canUseDiceOperation (Some gs) op = false ->
   op = Divide /\
   exists text,
     NumClashScreen.selectDiceOperation op c
     = (NumClashScreen.alert "Hata" (NumClashScreen.Literal text) c, None)).
Proof.
  intros Hgs. unfold NumClashScreen.selectDiceOperation,
                NumClashScreen.canUseDiceOperation, applyDiceOperation.
  rewrite Hgs. split; [|split].
  - intros [Hphase | ->]; [|reflexivity].
    destruct (diceResults gs) as [[dice1 dice2]|]; [|reflexivity].
    destruct (gamePhase gs); try reflexivity. contradiction.
  - intros -> Hdice Hcan.
    destruct (diceResults gs) as [[dice1 dice2]|]; [|contradiction].
    cbn [NumClashScreen.is_phase negb].
    destruct op; cbn in Hcan |- *; try (eexists; split; reflexivity).
    destruct (dice2 =? 0); [discriminate|]. rewrite Hcan. cbn.
    eexists. split; reflexivity.
  - intros -> Hdice Hcan.
    destruct (diceResults gs) as [[dice1 dice2]|]; [|contradiction].
    cbn [NumClashScreen.is_phase negb].
    destruct op; cbn in Hcan |- *; try discriminate.
    split; [reflexivity|].
    destruct (dice2 =? 0); [eexists; reflexivity|].
    rewrite Hcan. cbn. eexists. reflexivity.
Qed.

Lemma selectDiceOperation_outcome_witness :
  let gs := sample_state (Some (4, 3)) None dice_operation in
  (exists gs', applyDiceOperation gs Minus = Ok gs' /\
               NumClashScreen.gameState
                 (fst (NumClashScreen.selectDiceOperation
                         Minus (sample_screen gs))) = Some gs') /\
  (exists text,
     NumClashScreen.alerts
       (fst (NumClashScreen.selectDiceOperation Divide (sample_screen gs)))
     = [("Hata"%string, NumClashScreen.Literal text)]) /\
  NumClashScreen.selectDiceOperation
    Plus (sample_screen (sample_state None None roll))
  = (sample_screen (sample_state None None roll), None).
Proof.
  intros gs.
  destruct (selectDiceOperation_outcome (sample_screen gs) gs Minus eq_refl)
    as (_ & Hlegal & _).
  destruct (selectDiceOperation_outcome (sample_screen gs) gs Divide eq_refl)
    as (_ & _ & Hillegal).
  destruct (selectDiceOperation_outcome
              (sample_screen (sample_state None None roll))
              (sample_state None None roll) Plus eq_refl)
    as (Hidle & _ & _).
  split; [|split].
  - destruct (Hlegal eq_refl ltac:(discriminate) eq_refl) as (gs' & Hok & Hrun).
    exists gs'. split; [exact Hok|]. rewrite Hrun. reflexivity.
  - destruct (Hillegal eq_refl ltac:(discriminate) eq_refl)
      as (_ & text & Hrun).
    exists text. rewrite Hrun. reflexivity.
  - apply Hidle. left. discriminate.
Defined.

(** X18.  Choosing a final operation, with a stored dice result other
    than [0] and a valid active index.  A choice the legality test allows
    is always accepted by the engine: the component takes the new state,
    closes the operations modal, stops the timer, and schedules the
    congratulation, naming the stored winner, exactly when the move won.
    A choice the test rejects is the division; the handler shows one alert
    and keeps the state. *)
Theorem selectFinalOperation_outcome
        (c : NumClashScreen.State) (gs : GameState) (d : Z) (cur : Player)
        (op : Operation) :
  NumClashScreen.gameState c = Some gs ->
  gamePhase gs = final_operation ->
  diceCalculationResult gs = Some d -> d <> 0 ->
  getCurrentPlayer gs = Some cur ->
  (NumClashScreen.canUseFinalOperation (Some gs) op = Ok true ->
   exists gs',
     applyFinalMove gs op = Ok gs' /\
     let c' := fst (NumClashScreen.selectFinalOperation op c) in
     NumClashScreen.gameState c' = Some gs' /\
     NumClashScreen.showOperationsModal c' = false /\
     NumClashScreen.isTimerActive c' = false /\
     NumClashScreen.alerts c' = NumClashScreen.alerts c /\
     NumClashScreen.scheduled c'
     = NumClashScreen.scheduled c
       ++ match winner gs' with
          | Some w => [("🎉 Tebrikler!"%string,
                        NumClashScreen.Literal
                          (name w ++ " oyunu kazandı!")%string)]
          | None => []
          end) /\
  (NumClashScreen.canUseFinalOperation (Some gs) op = Ok false ->
   op = Divide /\
   NumClashScreen.gameState (fst (NumClashScreen.selectFinalOperation op c))
   = Some gs /\
   exists text,
     NumClashScreen.alerts (fst (NumClashScreen.selectFinalOperation op c))
     = NumClashScreen.alerts c ++ [("Hata"%string, NumClashScreen.Literal text)]).
Proof.
  intros Hgs Hphase Hd Hnz Hcur.
  unfold NumClashScreen.canUseFinalOperation, NumClashScreen.selectFinalOperation.
  rewrite Hgs, Hd, Hphase, Hcur. cbn [NumClashScreen.is_phase negb].
  split.
  - intros Hcan.
    assert (Hin : In op (Plus :: Minus :: Times ::
                         (if canDivide (currentNumber cur) d
                          then [Divide] else []))).
    { destruct op; cbn in Hcan |- *; auto.
      injection Hcan as ->. cbn. auto. }
    destruct (HandlerFacts.final_move_applies gs d cur op Hd Hnz Hcur Hin)
      as [gs' Hok].
    exists gs'. split; [exact Hok|].
    rewrite Hok.
    assert (Hguard : (if NumClashScreen.is_divide op
                      then negb (canDivide (currentNumber cur) d)
                      else false) = false).
    { destruct op; cbn in Hcan |- *; try reflexivity.
      injection Hcan as ->. reflexivity. }
    destruct op; cbn [NumClashScreen.is_divide] in Hguard |- *;
      try rewrite Hguard; cbn [fst];
      unfold NumClashScreen.announceWinner;
      destruct (winner gs'); cbn; rewrite ?app_nil_r; repeat split.
  - intros Hcan. destruct op; cbn in Hcan; try discriminate.
    injection Hcan as Hcan. split; [reflexivity|].
    cbn [NumClashScreen.is_divide]. rewrite Hcan. cbn.
    split; [exact Hgs|]. eexists. reflexivity.
Qed.

Lemma selectFinalOperation_outcome_witness :
  let gs := sample_state (Some (5, 5)) (Some 25) final_operation in
  exists gs',
    applyFinalMove gs Plus = Ok gs' /\
    NumClashScreen.scheduled
      (fst (NumClashScreen.selectFinalOperation Plus (sample_screen gs)))
    = [("🎉 Tebrikler!"%string,
        NumClashScreen.Literal "Ada oyunu kazandı!"%string)].
Proof.
  intros gs.
  destruct (selectFinalOperation_outcome
              (sample_screen gs) gs 25
              {| id := 1; name := "Ada"; currentNumber := 25;
                 color := Some "#FF6B6B"%string |}
              Plus eq_refl eq_refl eq_refl ltac:(lia) eq_refl)
    as (Hlegal & _).
  destruct (Hlegal eq_refl) as (gs' & Hok & _ & _ & _ & _ & Hsched).
  exists gs'. split; [exact Hok|].
  rewrite Hsched. injection Hok as <-. reflexivity.
Defined.

(** ** Starting a game from the names modal *)

(** X19.  [startGameWithNames] starts a game only when no entered name
    is blank.  If some name trims to the empty string, it shows one
    warning and leaves the modal open and the game untouched.  Otherwise
    it closes the modal and holds the state [initializeGame] returns for
    the entered names, in which every seat that has an entry carries the
    trimmed entry as its name. *)
Theorem startGameWithNames_outcome
        (playerCount : Z) (rTarget rStart : Q) (c : NamesModal.State) :
  ((exists entry, In entry (NamesModal.playerNames c) /\ trim entry = ""%string) ->
   NamesModal.gameState
     (NamesModal.startGameWithNames playerCount rTarget rStart c)
   = NamesModal.gameState c /\
   NamesModal.showPlayerNamesModal
     (NamesModal.startGameWithNames playerCount rTarget rStart c)
   = NamesModal.showPlayerNamesModal c /\
   List.length (NamesModal.alerts
                  (NamesModal.startGameWithNames playerCount rTarget rStart c))
   = S (List.length (NamesModal.alerts c))) /\
  ((forall entry, In entry (NamesModal.playerNames c) ->
                  trim entry <> ""%string) ->
   exists gs,
     initializeGame playerCount (Some (NamesModal.playerNames c))
                    rTarget rStart = Ok gs /\
     NamesModal.startGameWithNames playerCount rTarget rStart c
     = {| NamesModal.playerNames := NamesModal.playerNames c;
          NamesModal.showPlayerNamesModal := false;
          NamesModal.gameState := Some gs;
          NamesModal.alerts := NamesModal.alerts c |} /\
     forall i entry,
       0 <= i < playerCount ->
       at_index (NamesModal.playerNames c) i = Some entry ->
       exists p, at_index (players gs) i = Some p /\ name p = trim entry).
Proof.
  unfold NamesModal.startGameWithNames. split.
  - intros (entry & Hin & Hblank).
    assert (Hsome : existsb (fun n => String.eqb (trim n) "")
                            (NamesModal.playerNames c) = true).
    { apply existsb_exists. exists entry. split; [exact Hin|].
      rewrite Hblank. reflexivity. }
    rewrite Hsome. cbn. rewrite length_app. cbn. repeat split. lia.
  - intros Hall.
    assert (Hnone : existsb (fun n => String.eqb (trim n) "")
                            (NamesModal.playerNames c) = false).
    { destruct (existsb _ _) eqn:He; [|reflexivity].
      apply existsb_exists in He. destruct He as (entry & Hin & Hblank).
      apply String.eqb_eq in Hblank. exfalso. exact (Hall entry Hin Hblank). }
    rewrite Hnone.
    destruct (initializeGame_returns playerCount
                (Some (NamesModal.playerNames c)) rTarget rStart)
      as (gs & Hinit & _).
    exists gs. split; [exact Hinit|]. rewrite Hinit. split; [reflexivity|].
    intros i entry Hi Hentry. exists (seat (Some (NamesModal.playerNames c)) i).
    split; [exact (initializeGame_seat_at _ _ _ _ _ i Hinit Hi)|].
    cbn. unfold seat_name. rewrite Hentry.
    destruct (String.eqb_spec (trim entry) ""); [|reflexivity].
    exfalso. exact (Hall entry (at_index_In _ _ _ Hentry) e).
Qed.

Lemma startGameWithNames_outcome_witness :
  NamesModal.gameState
    (NamesModal.startGameWithNames
       2 (1 # 2) 0 (sample_names_modal ["Ece"; "  "]%string)) = None /\
  exists gs p,
    NamesModal.gameState
      (NamesModal.startGameWithNames
         2 (1 # 2) 0 (sample_names_modal [" Ece"; "Can "]%string)) = Some gs /\
    at_index (players gs) 1 = Some p /\ name p = "Can"%string.
Proof.
  destruct (startGameWithNames_outcome
              2 (1 # 2) 0 (sample_names_modal ["Ece"; "  "]%string))
    as (Hblank & _).
  destruct (startGameWithNames_outcome
              2 (1 # 2) 0 (sample_names_modal [" Ece"; "Can "]%string))
    as (_ & Hstart).
  split.
  - apply Hblank. exists "  "%string. split; [cbn; auto | reflexivity].
  - destruct Hstart as (gs & _ & Hrun & Hnames).
    + intros entry [<-|[<-|[]]]; discriminate.
    + destruct (Hnames 1 "Can "%string ltac:(lia) eq_refl) as (p & Hp & Hname).
      exists gs, p. rewrite Hrun. auto.
Defined.

(** ** The application shell *)

Lemma playerOptions_in_range (index : nat) (count : Z) :
  nth_error playerOptions index = Some count -> 2 <= count <= 4.
Proof.
  unfold playerOptions.
  destruct index as [|[|[|index]]]; cbn; intros H;
    try (injection H as <-; lia).
  destruct index; discriminate.
Qed.

Lemma App_step_keeps_range (s : App.State) (e : App.Event) :
  2 <= App.playerCount s <= 4 -> 2 <= App.playerCount (App.step s e) <= 4.
Proof.
  intros Hs. unfold App.step.
  destruct e as [index|]; cbn; [|exact Hs].
  destruct (nth_error playerOptions index) as [count|] eqn:Hn; [|exact Hs].
  exact (playerOptions_in_range index count Hn).
Qed.

Lemma App_run_keeps_range (events : list App.Event) :
  forall s, 2 <= App.playerCount s <= 4 ->
            2 <= App.playerCount (App.run events s) <= 4.
Proof.
  unfold App.run.
  induction events as [|e events IH]; intros s Hs; cbn; [exact Hs|].
  apply IH, App_step_keeps_range, Hs.
Qed.

(** X20.  Whatever buttons are pressed, the player count the application
    holds is 2, 3 or 4; a game initialised with it therefore has two to
    four players, a valid starting index, and a distinct palette colour
    on every seat. *)
Theorem App_playerCount_always_playable (events : list App.Event) :
  2 <= App.playerCount (App.run events App.initial) <= 4 /\
  forall names rTarget rStart,
    unit_draw rStart ->
    exists gs,
      initializeGame (App.playerCount (App.run events App.initial))
                     names rTarget rStart = Ok gs /\
      (2 <= List.length (players gs) <= 4)%nat /\
      0 <= currentPlayerIndex gs < Z.of_nat (List.length (players gs)) /\
      Forall (fun p => color p <> None) (players gs) /\
      NoDup (map color (players gs)).
Proof.
  assert (Hrange : 2 <= App.playerCount (App.run events App.initial) <= 4)
    by (apply App_run_keeps_range; cbn; lia).
  split; [exact Hrange|].
  intros names rTarget rStart Hr.
  set (n := App.playerCount (App.run events App.initial)) in *.
  destruct (initializeGame_returns n names rTarget rStart)
    as (gs & Hinit & Hlen & _).
  exists gs. split; [exact Hinit|]. split; [lia|].
  split.
  { exact (proj2 (initializeGame_seats_consistent n names rTarget rStart gs
                    ltac:(lia) Hr Hinit)). }
  injection Hinit as <-. cbn [players].
  assert (Hn : n = 2 \/ n = 3 \/ n = 4) by lia.
  destruct Hn as [-> | [-> | ->]]; cbn; split;
    repeat constructor; cbn; try discriminate; intuition discriminate.
Qed.

Lemma App_playerCount_always_playable_witness :
  App.playerCount
    (App.run [App.PressOption 2; App.PressBack; App.PressOption 7] App.initial)
  = 4 /\
  exists gs,
    initializeGame 4 None (1 # 2) (1 # 2) = Ok gs /\
    NoDup (map color (players gs)).
Proof.
  split; [reflexivity|].
  destruct (proj2 (App_playerCount_always_playable
                     [App.PressOption 2; App.PressBack; App.PressOption 7])
                  None (1 # 2) (1 # 2) unit_draw_half)
    as (gs & Hinit & _ & _ & _ & Hcolors).
  exists gs. split; assumption.
Defined.

(** ** Dice faces *)

(** X21.  [getDiceFace] shows a different face for each of the six die
    values, and the face of a one for every other number. *)
Theorem getDiceFace_faces :
  (forall a b, is_die a -> is_die b -> getDiceFace a = getDiceFace b -> a = b) /\
  (forall n, ~ is_die n -> getDiceFace n = getDiceFace 1).
Proof.
  split.
  - intros a b Ha Hb.
    destruct (die_cases a Ha) as [->|[->|[->|[->|[->| ->]]]]];
      destruct (die_cases b Hb) as [->|[->|[->|[->|[->| ->]]]]];
      cbn; intros H; try reflexivity; discriminate H.
  - intros n Hn. unfold is_die in Hn.
    change (getDiceFace 1) with "⚀"%string.
    unfold getDiceFace, diceFaces, property_of.
    repeat (match goal with
            | |- context [?k =? n] =>
                destruct (Z.eqb_spec k n) as [|_]; [lia|]
            end).
    reflexivity.
Qed.

Lemma getDiceFace_faces_witness :
  getDiceFace 0 = getDiceFace 1 /\ getDiceFace 7 = getDiceFace 1 /\
  getDiceFace 3 <> getDiceFace 5.
Proof.
  destruct getDiceFace_faces as (Hdistinct & Hother).
  split; [apply Hother; unfold is_die; lia|].
  split; [apply Hother; unfold is_die; lia|].
  intros H. apply Hdistinct in H; unfold is_die; lia.
Defined.

(** ** The progress bar of the turn timer *)

Module ProgressFacts.

Import LinearProgress.

Section Countdown.

Variable duration : Z.
Hypothesis duration_pos : 0 < duration.

Let D : Q := inject_Z duration.
Let dec : Q := decrementAmount duration.

Lemma D_pos : (0 < D)%Q.
Proof.
  unfold D. change 0%Q with (inject_Z 0). rewrite <- Zlt_Qlt.
  exact duration_pos.
Qed.

Lemma dec_pos : (0 < dec)%Q.
Proof.
  unfold dec, decrementAmount. apply Qlt_shift_div_l; [exact D_pos|].
  rewrite Qmult_0_l. reflexivity.
Qed.

Lemma D_times_dec : (D * dec == 100)%Q.
Proof.
  unfold dec, decrementAmount. apply Qmult_div_r.
  intros H. pose proof D_pos as Hpos. fold D in H. rewrite H in Hpos.
  discriminate.
Qed.

Lemma remaining_positive (m : Z) :
  m < duration -> (0 < 100 - inject_Z m * dec)%Q.
Proof.
  intros Hm.
  assert (Hlt : (inject_Z m * dec < D * dec)%Q).
  { apply Qmult_lt_compat_r; [exact dec_pos|].
    unfold D. rewrite <- Zlt_Qlt. exact Hm. }
  rewrite D_times_dec in Hlt. lra.
Qed.

Lemma running (st0 : State) (n : nat) :
  Z.of_nat n < duration ->
  intervalRef (ticks duration n (activate st0)) = true /\
  completions (ticks duration n (activate st0)) = completions st0 /\
  (currentProgress (ticks duration n (activate st0))
   == 100 - inject_Z (Z.of_nat n) * dec)%Q /\
  (progress (ticks duration n (activate st0))
   == 100 - inject_Z (Z.of_nat n) * dec)%Q.
Proof.
  induction n as [|n IH]; intros Hn.
  - cbn. repeat split; ring.
  - destruct IH as (Hrun & Hcount & Hcur & _); [lia|].
    cbn [ticks]. unfold tick. rewrite Hrun.
    set (cp := (currentProgress (ticks duration n (activate st0))
                - decrementAmount duration)%Q).
    assert (Hcp : (cp == 100 - inject_Z (Z.of_nat (S n)) * dec)%Q).
    { unfold cp. rewrite Hcur. fold dec.
      rewrite Nat2Z.inj_succ. unfold Z.succ. rewrite inject_Z_plus. ring. }
    pose proof (remaining_positive (Z.of_nat (S n)) Hn) as Hpos.
    rewrite <- Hcp in Hpos.
    destruct (Qle_bool cp 0) eqn:Htest.
    + apply Qle_bool_iff in Htest. lra.
    + cbn. repeat split; try assumption.
      rewrite <- Hcp. apply Q.max_r. lra.
Qed.

Lemma completes (st0 : State) (n : nat) :
  Z.of_nat (S n) = duration ->
  intervalRef (ticks duration (S n) (activate st0)) = false /\
  completions (ticks duration (S n) (activate st0)) = S (completions st0) /\
  (progress (ticks duration (S n) (activate st0)) == 0)%Q.
Proof.
  intros Hn.
  destruct (running st0 n) as (Hrun & Hcount & Hcur & _); [lia|].
  cbn [ticks]. unfold tick. rewrite Hrun.
  set (cp := (currentProgress (ticks duration n (activate st0))
              - decrementAmount duration)%Q).
  assert (Hcp : (cp == 0)%Q).
  { unfold cp. rewrite Hcur. fold dec.
    assert (HD : (inject_Z (Z.of_nat n) == D - 1)%Q).
    { unfold D. rewrite <- Hn, Nat2Z.inj_succ. unfold Z.succ.
      rewrite inject_Z_plus. ring. }
    rewrite HD. pose proof D_times_dec. lra. }
  destruct (Qle_bool cp 0) eqn:Htest.
  - cbn. repeat split; [congruence|].
    rewrite Hcp. reflexivity.
  - exfalso.
    assert (Hle : (cp <= 0)%Q) by (rewrite Hcp; apply Qle_refl).
    apply Qle_bool_iff in Hle. congruence.
Qed.

Lemma stopped_stays (st : State) (k : nat) :
  intervalRef st = false -> ticks duration k st = st.
Proof.
  intros Hstop. induction k as [|k IH]; [reflexivity|].
  cbn [ticks]. rewrite IH. unfold tick. rewrite Hstop. reflexivity.
Qed.

Lemma ticks_add (st : State) (k m : nat) :
  ticks duration (k + m) st = ticks duration k (ticks duration m st).
Proof.
  induction k as [|k IH]; [reflexivity|].
  cbn [Nat.add ticks]. rewrite IH. reflexivity.
Qed.

End Countdown.

End ProgressFacts.

(** X22.  The progress bar of a [duration]-second timer (a positive
    divisor of 100, like the 5 seconds of both timers): before the
    [duration]-th tick the interval is live, [onComplete] has not been
    called and the bar shows [100 - n * 100 / duration]; at the
    [duration]-th tick [onComplete] is called, the interval is cleared and
    the bar is empty, and however many ticks follow, [onComplete] is never
    called a second time. *)
Theorem LinearProgress_completes_once
        (duration : Z) (st0 : LinearProgress.State) (n : nat) :
  0 < duration -> (duration | 100) ->
  (Z.of_nat n < duration ->
   LinearProgress.intervalRef
     (LinearProgress.ticks duration n (LinearProgress.activate st0)) = true /\
   LinearProgress.completions
     (LinearProgress.ticks duration n (LinearProgress.activate st0))
   = LinearProgress.completions st0 /\
   (LinearProgress.progress
      (LinearProgress.ticks duration n (LinearProgress.activate st0))
    == 100 - inject_Z (Z.of_nat n) * (100 / inject_Z duration))%Q) /\
  (duration <= Z.of_nat n ->
   LinearProgress.intervalRef
     (LinearProgress.ticks duration n (LinearProgress.activate st0)) = false /\
   LinearProgress.completions
     (LinearProgress.ticks duration n (LinearProgress.activate st0))
   = S (LinearProgress.completions st0) /\
   (LinearProgress.progress
      (LinearProgress.ticks duration n (LinearProgress.activate st0))
    == 0)%Q).
Proof.
  intros Hpos _. split.
  - intros Hn.
    destruct (ProgressFacts.running duration Hpos st0 n Hn)
      as (Hrun & Hcount & _ & Hprogress).
    auto.
  - intros Hn.
    assert (Hsplit : exists m k, n = (k + S m)%nat /\ Z.of_nat (S m) = duration).
    { exists (Z.to_nat duration - 1)%nat, (n - Z.to_nat duration)%nat.
      split; lia. }
    destruct Hsplit as (m & k & -> & Hm).
    rewrite (ProgressFacts.ticks_add duration).
    destruct (ProgressFacts.completes duration Hpos st0 m Hm)
      as (Hstop & Hcount & Hprogress).
    rewrite (ProgressFacts.stopped_stays duration _ k Hstop).
    auto.
Qed.

Lemma LinearProgress_completes_once_witness :
  let st0 := {| LinearProgress.progress := 100;
                LinearProgress.currentProgress := 100;
                LinearProgress.intervalRef := false;
                LinearProgress.completions := 0 |} in
  LinearProgress.completions
    (LinearProgress.ticks DICE_OPERATION_TIMER 4 (LinearProgress.activate st0))
  = 0%nat /\
  LinearProgress.completions
    (LinearProgress.ticks DICE_OPERATION_TIMER 5 (LinearProgress.activate st0))
  = 1%nat /\
  LinearProgress.completions
    (LinearProgress.ticks FINAL_OPERATION_TIMER 9 (LinearProgress.activate st0))
  = 1%nat.
Proof.
  intros st0.
  assert (Hdiv : (5 | 100)) by (exists 20; reflexivity).
  split; [|split].
  - apply (LinearProgress_completes_once 5 st0 4 eq_refl Hdiv). reflexivity.
  - apply (LinearProgress_completes_once 5 st0 5 eq_refl Hdiv). discriminate.
  - apply (LinearProgress_completes_once 5 st0 9 eq_refl Hdiv). discriminate.
Defined.
